(** * hapclient-node: lib/transport/ble/gatt-utils.js

    A shallow embedding of the GATT helper module (UUID conversion, the HAP
    value codec and the disconnect/timeout watcher) together with the part
    of the JavaScript host the module runs on (strings, numbers, Buffer,
    EventEmitter and timers), and the properties of the module. *)

From Stdlib Require Import String Ascii.
From Stdlib Require Import ZArith List Bool Lia.
From Stdlib Require Import Floats.SpecFloat.
From coqutil Require Import Byte Word.LittleEndianList.
Import ListNotations.
Local Open Scope Z_scope.

(* ===================================================================== *)
(** * The host: JavaScript strings *)
(* ===================================================================== *)

Module JSString.

(** A JavaScript string is a sequence of UTF-16 code units. *)
Definition jsstring := list Z.

(** A string literal of the source text (ASCII only). *)
Definition js (s : string) : jsstring :=
  map (fun a => Z.of_N (N_of_ascii a)) (list_ascii_of_string s).

(** [===] on strings. *)
Fixpoint streq (a b : jsstring) : bool :=
  match a, b with
  | [], [] => true
  | x :: a', y :: b' => (x =? y) && streq a' b'
  | _, _ => false
  end.

(** [s.substring(a, b)]: both indices are clamped to the length and
    swapped when [a > b]. *)
Definition substring (s : jsstring) (a b : nat) : jsstring :=
  let a' := Nat.min a (length s) in
  let b' := Nat.min b (length s) in
  firstn (Nat.max a' b' - Nat.min a' b') (skipn (Nat.min a' b') s).

(** [parts.join(sep)] *)
Fixpoint join (sep : jsstring) (parts : list jsstring) : jsstring :=
  match parts with
  | [] => []
  | [p] => p
  | p :: rest => p ++ sep ++ join sep rest
  end.

(** [s.replace(/c/g, '')] for a one-character pattern [c]. *)
Definition remove_all (c : Z) (s : jsstring) : jsstring :=
  filter (fun x => negb (x =? c)) s.

(** The ASCII letters' case mappings; they are what [toLowerCase] and
    [toUpperCase] do on the characters of a UUID, and serve as the concrete
    instance of the host's case conversion in the examples. *)
Definition ascii_lower (c : Z) : Z :=
  if (65 <=? c) && (c <=? 90) then c + 32 else c.

Definition ascii_upper (c : Z) : Z :=
  if (97 <=? c) && (c <=? 122) then c - 32 else c.

Lemma streq_eq (a b : jsstring) : streq a b = true <-> a = b.
Proof.
  revert b; induction a as [|x a IH]; intros [|y b]; simpl;
    try (split; [discriminate | congruence]); try tauto.
  rewrite andb_true_iff, Z.eqb_eq, IH. split.
  - intros [-> ->]; reflexivity.
  - intros E; inversion E; auto.
Qed.

Lemma streq_refl (a : jsstring) : streq a a = true.
Proof. apply streq_eq; reflexivity. Qed.

Lemma streq_neq (a b : jsstring) : streq a b = false <-> a <> b.
Proof.
  rewrite <- streq_eq. destruct (streq a b); split; congruence.
Qed.

Lemma ascii_lower_stable (c : Z) : ascii_lower (ascii_lower c) = ascii_lower c.
Proof.
  unfold ascii_lower.
  destruct (Z.leb_spec 65 c), (Z.leb_spec c 90); simpl;
    try destruct (Z.leb_spec 65 (c + 32)), (Z.leb_spec (c + 32) 90); simpl;
    try destruct (Z.leb_spec 65 c), (Z.leb_spec c 90); simpl; lia.
Qed.

End JSString.
Import JSString.

(* ===================================================================== *)
(** * The host: JavaScript numbers and values *)
(* ===================================================================== *)

Module JSNumber.

(** A JavaScript number is an IEEE-754 binary64 value. *)
Definition number := spec_float.

(** The number denoted by an integer literal, or produced from an integer
    result: the nearest binary64 value. *)
Definition of_Z (z : Z) : number := binary_normalize 53 1024 z 0 false.

(** The integer part of a number, rounding toward zero; NaN and the
    infinities give 0, as in the integer conversions below. *)
Definition truncate (x : number) : Z :=
  match x with
  | S754_finite s m e => cond_Zopp s (Z.shiftl (Zpos m) e)
  | _ => 0
  end.

Definition wrap_signed (w z : Z) : Z := (z + 2 ^ (w - 1)) mod 2 ^ w - 2 ^ (w - 1).

Definition ToInt32 (x : number) : Z := wrap_signed 32 (truncate x).
Definition ToUint32 (x : number) : Z := truncate x mod 2 ^ 32.

(** The bitwise and shift operators work on 32-bit integers and use the
    shift count modulo 32. *)
Definition bitand (a b : number) : number :=
  of_Z (Z.land (ToInt32 a) (ToInt32 b)).

Definition shl (a b : number) : number :=
  of_Z (wrap_signed 32 (Z.shiftl (ToInt32 a) (ToUint32 b mod 32))).

Definition sar (a b : number) : number :=
  of_Z (Z.shiftr (ToInt32 a) (ToUint32 b mod 32)).

(** Exact comparison of a number with an integer; [None] on NaN. *)
Definition compare_Z (x : number) (k : Z) : option comparison :=
  match x with
  | S754_nan => None
  | S754_infinity s => Some (if s then Lt else Gt)
  | S754_zero _ => Some (0 ?= k)
  | S754_finite s m e =>
      Some (if 0 <=? e then cond_Zopp s (Zpos m) * 2 ^ e ?= k
            else cond_Zopp s (Zpos m) ?= k * 2 ^ (- e))
  end.

(** [x < k] and [x > k]; both are false on NaN. *)
Definition ltb_Z (x : number) (k : Z) : bool :=
  match compare_Z x k with Some Lt => true | _ => false end.

Definition gtb_Z (x : number) (k : Z) : bool :=
  match compare_Z x k with Some Gt => true | _ => false end.

(** Conversion to boolean: zero and NaN are falsy. *)
Definition truthy (x : number) : bool :=
  match x with
  | S754_zero _ | S754_nan => false
  | _ => true
  end.

(** ** Lemmas: exact conversions *)

Lemma digits2_pos_size (m : positive) : digits2_pos m = Pos.size m.
Proof. induction m; simpl; congruence. Qed.

Lemma digits2_pos_iter (m k : positive) :
  digits2_pos (Pos.iter xO m k) = (digits2_pos m + k)%positive.
Proof.
  induction k as [|k IH] using Pos.peano_ind.
  - simpl. lia.
  - rewrite Pos.iter_succ. simpl. rewrite IH. lia.
Qed.

Lemma Zpos_iter_xO (m k : positive) :
  Zpos (Pos.iter xO m k) = Zpos m * 2 ^ Zpos k.
Proof.
  induction k as [|k IH] using Pos.peano_ind.
  - simpl. lia.
  - rewrite Pos.iter_succ, Pos2Z.inj_succ, Z.pow_succ_r by lia.
    rewrite Pos2Z.inj_xO, IH. lia.
Qed.

Lemma digits2_pos_bound (m : positive) (n : Z) :
  0 <= n -> Zpos m < 2 ^ n -> Zpos (digits2_pos m) <= n.
Proof.
  intros Hn H. rewrite digits2_pos_size.
  destruct (Z.le_gt_cases (Zpos (Pos.size m)) n) as [|Hgt]; [assumption|exfalso].
  pose proof (Pos.size_le m) as Hle.
  assert (E : Zpos (2 ^ Pos.size m) = 2 ^ Zpos (Pos.size m)) by apply Pos2Z.inj_pow.
  assert (2 ^ (n + 1) <= 2 ^ Zpos (Pos.size m)) by (apply Z.pow_le_mono_r; lia).
  rewrite Z.pow_add_r in * by lia.
  assert (Zpos (2 ^ Pos.size m) <= Zpos m~0) by (apply Pos2Z.pos_le_pos; exact Hle).
  rewrite Pos2Z.inj_xO in *. lia.
Qed.

Lemma iter_pos_iter {A} (f : A -> A) (p : positive) (x : A) :
  iter_pos f p x = Pos.iter f x p.
Proof.
  revert x; induction p as [p IH|p IH|]; intros x; simpl; auto.
  - rewrite !IH. now rewrite <- !Pos.iter_swap.
  - now rewrite !IH.
Qed.

Lemma shr_exact (m k : positive) :
  iter_pos shr_1 k {| shr_m := Zpos (Pos.iter xO m k); shr_r := false; shr_s := false |}
  = {| shr_m := Zpos m; shr_r := false; shr_s := false |}.
Proof.
  rewrite iter_pos_iter. revert m.
  induction k as [|k IH] using Pos.peano_ind; intros m.
  - reflexivity.
  - rewrite (Pos.iter_succ_r k _ shr_1), (Pos.iter_succ k _ xO).
    cbn [shr_1 orb]. apply IH.
Qed.

(** A mantissa that is canonical in a format rounds to itself. *)
Lemma binary_round_aux_canonical prec emax s m e :
  canonical_mantissa prec emax m e = true -> e <= emax - prec ->
  binary_round_aux prec emax s (Zpos m) e loc_Exact = S754_finite s m e.
Proof.
  unfold canonical_mantissa. intros Hc He. apply Z.eqb_eq in Hc.
  unfold binary_round_aux, shr_fexp. cbn [Zdigits2].
  rewrite Hc, Z.sub_diag.
  cbn [shr shr_m shr_record_of_loc round_nearest_even loc_of_shr_record Zdigits2].
  rewrite Hc, Z.sub_diag. cbn [shr shr_m shr_record_of_loc].
  destruct (Z.leb_spec e (emax - prec)); [reflexivity|lia].
Qed.

(** Rounding to a format with room for the mantissa only aligns it. *)
Lemma binary_round_widen prec emax s m e :
  Zpos (digits2_pos m) < prec ->
  3 - emax - prec <= e + Zpos (digits2_pos m) - prec ->
  e + Zpos (digits2_pos m) <= emax ->
  binary_round prec emax s m e
  = S754_finite s (Pos.iter xO m (Z.to_pos (prec - Zpos (digits2_pos m))))
      (e + Zpos (digits2_pos m) - prec).
Proof.
  intros Hd Hlo Hhi. set (d := Zpos (digits2_pos m)) in *.
  assert (Hf : fexp prec emax (d + e) = e + d - prec)
    by (unfold fexp, emin; lia).
  unfold binary_round. fold d. rewrite Hf. unfold shl_align.
  assert (Hk : Zpos (Z.to_pos (prec - d)) = prec - d) by (apply Z2Pos.id; lia).
  replace (e + d - prec - e) with (Z.neg (Z.to_pos (prec - d)))
    by (rewrite <- Pos2Z.opp_pos, Hk; lia).
  apply binary_round_aux_canonical; [|lia].
  unfold canonical_mantissa. rewrite digits2_pos_iter. apply Z.eqb_eq.
  rewrite Pos2Z.inj_add, Hk. fold d. unfold fexp, emin. lia.
Qed.

(** Rounding to a format in which the value is representable drops the
    trailing zeros of the mantissa. *)
Lemma binary_round_narrow prec emax s m e k :
  canonical_mantissa prec emax m e = true -> e <= emax - prec ->
  binary_round prec emax s (Pos.iter xO m k) (e - Zpos k) = S754_finite s m e.
Proof.
  intros Hc He. pose proof Hc as Hc'. unfold canonical_mantissa in Hc'.
  apply Z.eqb_eq in Hc'.
  assert (Hf : fexp prec emax (Zpos (digits2_pos (Pos.iter xO m k)) + (e - Zpos k)) = e).
  { rewrite digits2_pos_iter, Pos2Z.inj_add.
    replace (Zpos (digits2_pos m) + Zpos k + (e - Zpos k))
      with (Zpos (digits2_pos m) + e) by lia.
    exact Hc'. }
  unfold binary_round. rewrite Hf. unfold shl_align.
  replace (e - (e - Zpos k)) with (Zpos k) by lia.
  unfold binary_round_aux. unfold shr_fexp at 1. cbn [Zdigits2]. rewrite Hf.
  replace (e - (e - Zpos k)) with (Zpos k) by lia.
  unfold shr. cbn [shr_record_of_loc]. rewrite shr_exact.
  cbn [shr_m shr_record_of_loc round_nearest_even loc_of_shr_record].
  unfold shr_fexp. cbn [Zdigits2].
  replace (e - Zpos k + Zpos k) with e by lia.
  rewrite Hc', Z.sub_diag. cbn [shr shr_m shr_record_of_loc].
  destruct (Z.leb_spec e (emax - prec)); [reflexivity|lia].
Qed.

(** The number of a small integer: its mantissa is the integer shifted to
    53 bits. *)
Lemma of_Z_small (z : Z) :
  z <> 0 -> - 2 ^ 52 < z < 2 ^ 52 ->
  exists m k,
    Zpos m = Z.abs z /\
    of_Z z = S754_finite (z <? 0) (Pos.iter xO m k) (- Zpos k).
Proof.
  intros Hz Hr.
  assert (H : forall s m, Zpos m < 2 ^ 52 ->
            exists k, binary_round 53 1024 s m 0
                      = S754_finite s (Pos.iter xO m k) (- Zpos k)).
  { intros s m Hm.
    pose proof (digits2_pos_bound m 52 ltac:(lia) Hm) as Hd.
    exists (Z.to_pos (53 - Zpos (digits2_pos m))).
    rewrite binary_round_widen by lia.
    f_equal. rewrite Z2Pos.id; lia. }
  destruct z as [|m|m]; [congruence| |].
  - destruct (H false m) as [k Hk]; [lia|]. exists m, k. split; [reflexivity|].
    exact Hk.
  - destruct (H true m) as [k Hk]; [lia|]. exists m, k. split; [reflexivity|].
    exact Hk.
Qed.

Lemma truncate_of_Z (z : Z) : - 2 ^ 52 < z < 2 ^ 52 -> truncate (of_Z z) = z.
Proof.
  intros Hr. destruct (Z.eq_dec z 0) as [->|Hz]; [reflexivity|].
  destruct (of_Z_small z Hz Hr) as (m & k & Hm & ->).
  unfold truncate. rewrite Z.shiftl_div_pow2, Z.opp_involutive by lia.
  rewrite Zpos_iter_xO, Z.div_mul by (apply Z.pow_nonzero; lia).
  rewrite Hm. unfold cond_Zopp. destruct (Z.ltb_spec z 0); lia.
Qed.

Lemma compare_Z_of_Z (z k : Z) :
  - 2 ^ 52 < z < 2 ^ 52 -> compare_Z (of_Z z) k = Some (z ?= k).
Proof.
  intros Hr. destruct (Z.eq_dec z 0) as [->|Hz]; [reflexivity|].
  destruct (of_Z_small z Hz Hr) as (m & j & Hm & ->).
  unfold compare_Z. destruct (Z.leb_spec 0 (- Zpos j)); [lia|].
  rewrite Z.opp_involutive, Zpos_iter_xO. f_equal.
  assert (Hp : 0 < 2 ^ Zpos j) by (apply Z.pow_pos_nonneg; lia).
  replace (cond_Zopp (z <? 0) (Zpos m * 2 ^ Zpos j)) with (z * 2 ^ Zpos j)
    by (unfold cond_Zopp; destruct (Z.ltb_spec z 0); lia).
  destruct (Z.compare_spec (z * 2 ^ Zpos j) (k * 2 ^ Zpos j)),
    (Z.compare_spec z k); try reflexivity; nia.
Qed.

Lemma truthy_of_Z (z : Z) :
  - 2 ^ 52 < z < 2 ^ 52 -> truthy (of_Z z) = negb (z =? 0).
Proof.
  intros Hr. destruct (Z.eq_dec z 0) as [->|Hz]; [reflexivity|].
  destruct (of_Z_small z Hz Hr) as (m & j & Hm & ->).
  simpl. destruct (Z.eqb_spec z 0); [contradiction|reflexivity].
Qed.

Lemma gtb_Z_of_Z (z k : Z) :
  - 2 ^ 52 < z < 2 ^ 52 -> gtb_Z (of_Z z) k = (k <? z).
Proof.
  intros Hr. unfold gtb_Z. rewrite compare_Z_of_Z by assumption.
  rewrite Z.ltb_compare, (Z.compare_antisym z k).
  destruct (z ?= k); reflexivity.
Qed.

Lemma ltb_Z_of_Z (z k : Z) :
  - 2 ^ 52 < z < 2 ^ 52 -> ltb_Z (of_Z z) k = (z <? k).
Proof.
  intros Hr. unfold ltb_Z. rewrite compare_Z_of_Z by assumption.
  rewrite Z.ltb_compare. destruct (z ?= k); reflexivity.
Qed.

Lemma ToInt32_of_Z (z : Z) :
  - 2 ^ 52 < z < 2 ^ 52 -> ToInt32 (of_Z z) = wrap_signed 32 z.
Proof. intros Hr. unfold ToInt32. now rewrite truncate_of_Z. Qed.

Lemma ToUint32_of_Z (z : Z) :
  - 2 ^ 52 < z < 2 ^ 52 -> ToUint32 (of_Z z) = z mod 2 ^ 32.
Proof. intros Hr. unfold ToUint32. now rewrite truncate_of_Z. Qed.

Lemma wrap_signed_small (w z : Z) :
  0 < w -> - 2 ^ (w - 1) <= z < 2 ^ (w - 1) -> wrap_signed w z = z.
Proof.
  intros Hw Hr. unfold wrap_signed.
  assert (E : 2 ^ w = 2 * 2 ^ (w - 1))
    by (rewrite <- Z.pow_succ_r by lia; f_equal; lia).
  rewrite Z.mod_small; lia.
Qed.

Lemma wrap_signed_range (w z : Z) :
  0 < w -> - 2 ^ (w - 1) <= wrap_signed w z < 2 ^ (w - 1).
Proof.
  intros Hw. unfold wrap_signed.
  assert (E : 2 ^ w = 2 * 2 ^ (w - 1))
    by (rewrite <- Z.pow_succ_r by lia; f_equal; lia).
  assert (0 < 2 ^ (w - 1)) by (apply Z.pow_pos_nonneg; lia).
  pose proof (Z.mod_pos_bound (z + 2 ^ (w - 1)) (2 ^ w) ltac:(lia)). lia.
Qed.

End JSNumber.
Import JSNumber.

Module JSValue.

(** The values the module is called with and returns. *)
Inductive value :=
| VUndefined
| VNull
| VBool (b : bool)
| VNum (n : number)
| VStr (s : jsstring)
| VBuf (b : list byte).

Definition ToBoolean (v : value) : bool :=
  match v with
  | VUndefined | VNull => false
  | VBool b => b
  | VNum n => truthy n
  | VStr s => negb (streq s [])
  | VBuf _ => true
  end.

(** [a || b] *)
Definition or_else (a b : value) : value := if ToBoolean a then a else b.

(** What a statement does: it returns a value or throws. *)
Inductive exn :=
| Error (message : jsstring)
| RangeError
| TypeError.

Inductive completion (A : Type) :=
| Return (a : A)
| Throw (e : exn).
Arguments Return {A} a.
Arguments Throw {A} e.

Definition bind {A B} (c : completion A) (k : A -> completion B) : completion B :=
  match c with
  | Return a => k a
  | Throw e => Throw e
  end.

End JSValue.
Import JSValue.

(* ===================================================================== *)
(** * The host: Buffer *)
(* ===================================================================== *)

Module Buffer.

Definition buffer := list byte.

(** [Buffer.alloc(n)] *)
Definition alloc (n : nat) : buffer := repeat Byte.x00 n.

(** [Buffer.from(array)]: every element is stored as an unsigned byte. *)
Definition from_array (l : list number) : buffer :=
  map (fun x => byte.of_Z (truncate x)) l.

(** ** Fixed-width reads and writes *)

(** The bytes a read at [offset] covers; a read that does not fit in the
    buffer throws a range error. *)
Definition slice_at (b : buffer) (offset n : nat) : completion (list byte) :=
  if (offset + n <=? length b)%nat then Return (firstn n (skipn offset b))
  else Throw RangeError.

(** The buffer with [bytes] stored at [offset]. *)
Definition store_at (b : buffer) (offset : nat) (bytes : list byte) : completion buffer :=
  if (offset + length bytes <=? length b)%nat
  then Return (firstn offset b ++ bytes ++ skipn (offset + length bytes) b)
  else Throw RangeError.

Definition readUInt8 (b : buffer) (offset : nat) : completion number :=
  bind (slice_at b offset 1) (fun bs => Return (of_Z (le_combine bs))).

Definition readUInt16LE (b : buffer) (offset : nat) : completion number :=
  bind (slice_at b offset 2) (fun bs => Return (of_Z (le_combine bs))).

Definition readUInt32LE (b : buffer) (offset : nat) : completion number :=
  bind (slice_at b offset 4) (fun bs => Return (of_Z (le_combine bs))).

Definition readInt32LE (b : buffer) (offset : nat) : completion number :=
  bind (slice_at b offset 4)
    (fun bs => Return (of_Z (wrap_signed 32 (le_combine bs)))).

(** An integer write checks the value against the bounds of the field
    (a NaN passes: both comparisons are false) and stores the low bytes of
    its integer part. *)
Definition write_int (n : nat) (min max : Z) (b : buffer) (value : number)
    (offset : nat) : completion buffer :=
  if gtb_Z value max || ltb_Z value min then Throw RangeError
  else store_at b offset (le_split n (truncate value)).

Definition writeUInt16LE := write_int 2 0 (2 ^ 16 - 1).
Definition writeUInt32LE := write_int 4 0 (2 ^ 32 - 1).
Definition writeInt32LE := write_int 4 (- 2 ^ 31) (2 ^ 31 - 1).

(** ** binary32 *)

(** The binary32 value nearest to a number, and the number of a binary32
    value. *)
Definition to_binary32 (x : number) : spec_float :=
  match x with
  | S754_finite s m e => binary_round 24 128 s m e
  | _ => x
  end.

Definition of_binary32 (f : spec_float) : number :=
  match f with
  | S754_finite s m e => binary_round 53 1024 s m e
  | _ => f
  end.

Definition sign_bit (s : bool) : Z := if s then 2 ^ 31 else 0.

(** The interchange format: sign, 8 bits of biased exponent, 23 bits of
    fraction. *)
Definition bits_of_binary32 (f : spec_float) : Z :=
  match f with
  | S754_zero s => sign_bit s
  | S754_infinity s => sign_bit s + 255 * 2 ^ 23
  | S754_nan => 255 * 2 ^ 23 + 2 ^ 22
  | S754_finite s m e =>
      if 2 ^ 23 <=? Zpos m
      then sign_bit s + (e + 150) * 2 ^ 23 + (Zpos m - 2 ^ 23)
      else sign_bit s + Zpos m
  end.

Definition binary32_of_bits (z : Z) : spec_float :=
  let s := 2 ^ 31 <=? z in
  let ex := z / 2 ^ 23 mod 2 ^ 8 in
  let mx := z mod 2 ^ 23 in
  if ex =? 0 then
    match mx with
    | Zpos m => S754_finite s m (-149)
    | _ => S754_zero s
    end
  else if ex =? 255 then
    if mx =? 0 then S754_infinity s else S754_nan
  else
    match mx + 2 ^ 23 with
    | Zpos m => S754_finite s m (ex - 150)
    | _ => S754_nan
    end.

Definition readFloatLE (b : buffer) (offset : nat) : completion number :=
  bind (slice_at b offset 4)
    (fun bs => Return (of_binary32 (binary32_of_bits (le_combine bs)))).

Definition writeFloatLE (b : buffer) (value : number) (offset : nat)
  : completion buffer :=
  store_at b offset (le_split 4 (bits_of_binary32 (to_binary32 value))).

(** ** UTF-8 *)

Definition is_high_surrogate (c : Z) : bool := (0xD800 <=? c) && (c <=? 0xDBFF).
Definition is_low_surrogate (c : Z) : bool := (0xDC00 <=? c) && (c <=? 0xDFFF).

(** The bytes of a code point. *)
Definition utf8_bytes (cp : Z) : list byte :=
  if cp <? 0x80 then [byte.of_Z cp]
  else if cp <? 0x800 then
    [byte.of_Z (0xC0 + cp / 64); byte.of_Z (0x80 + cp mod 64)]
  else if cp <? 0x10000 then
    [byte.of_Z (0xE0 + cp / 4096); byte.of_Z (0x80 + cp / 64 mod 64);
     byte.of_Z (0x80 + cp mod 64)]
  else
    [byte.of_Z (0xF0 + cp / 262144); byte.of_Z (0x80 + cp / 4096 mod 64);
     byte.of_Z (0x80 + cp / 64 mod 64); byte.of_Z (0x80 + cp mod 64)].

(** [Buffer.from(string)]: surrogate pairs are combined, a lone surrogate
    is replaced by U+FFFD. *)
Fixpoint utf8_encode (s : jsstring) : list byte :=
  match s with
  | [] => []
  | c :: rest =>
      if is_high_surrogate c then
        match rest with
        | d :: rest' =>
            if is_low_surrogate d
            then utf8_bytes (0x10000 + (c - 0xD800) * 0x400 + (d - 0xDC00))
                   ++ utf8_encode rest'
            else utf8_bytes 0xFFFD ++ utf8_encode rest
        | [] => utf8_bytes 0xFFFD
        end
      else if is_low_surrogate c then utf8_bytes 0xFFFD ++ utf8_encode rest
      else utf8_bytes c ++ utf8_encode rest
  end.

(** The decoder is the state machine of the Encoding Standard: the code
    point under construction, the continuation bytes still needed and the
    range allowed for the next one. *)
Record utf8_state := {
  code_point : Z;
  needed : nat;
  lower : Z;
  upper : Z
}.

Definition utf8_start : utf8_state :=
  {| code_point := 0; needed := 0; lower := 0x80; upper := 0xBF |}.

Definition utf8_lead (b : Z) : list Z * utf8_state :=
  if b <=? 0x7F then ([b], utf8_start)
  else if (0xC2 <=? b) && (b <=? 0xDF) then
    ([], {| code_point := b - 0xC0; needed := 1; lower := 0x80; upper := 0xBF |})
  else if (0xE0 <=? b) && (b <=? 0xEF) then
    ([], {| code_point := b - 0xE0; needed := 2;
            lower := if b =? 0xE0 then 0xA0 else 0x80;
            upper := if b =? 0xED then 0x9F else 0xBF |})
  else if (0xF0 <=? b) && (b <=? 0xF4) then
    ([], {| code_point := b - 0xF0; needed := 3;
            lower := if b =? 0xF0 then 0x90 else 0x80;
            upper := if b =? 0xF4 then 0x8F else 0xBF |})
  else ([0xFFFD], utf8_start).

Definition utf8_step (st : utf8_state) (b : Z) : list Z * utf8_state :=
  match needed st with
  | O => utf8_lead b
  | S n =>
      if (lower st <=? b) && (b <=? upper st) then
        let cp := code_point st * 64 + (b - 0x80) in
        match n with
        | O => ([cp], utf8_start)
        | S _ => ([], {| code_point := cp; needed := n; lower := 0x80; upper := 0xBF |})
        end
      else
        let '(out, st') := utf8_lead b in (0xFFFD :: out, st')
  end.

Fixpoint utf8_run (st : utf8_state) (bs : list byte) : list Z :=
  match bs with
  | [] => match needed st with O => [] | S _ => [0xFFFD] end
  | b :: rest =>
      let '(out, st') := utf8_step st (byte.unsigned b) in
      out ++ utf8_run st' rest
  end.

(** The code units of a code point. *)
Definition code_units (cp : Z) : jsstring :=
  if cp <? 0x10000 then [cp]
  else [0xD800 + (cp - 0x10000) / 0x400; 0xDC00 + (cp - 0x10000) mod 0x400].

(** [buffer.toString()] *)
Definition utf8_decode (bs : list byte) : jsstring :=
  flat_map code_units (utf8_run utf8_start bs).

(** A string is well formed when its code units are 16-bit and its
    surrogates come in pairs: it is the text of a sequence of code points. *)
Fixpoint well_formed (s : jsstring) : bool :=
  match s with
  | [] => true
  | c :: rest =>
      (0 <=? c) && (c <=? 0xFFFF) &&
      (if is_high_surrogate c then
         match rest with
         | d :: rest' => is_low_surrogate d && well_formed rest'
         | [] => false
         end
       else negb (is_low_surrogate c) && well_formed rest)
  end.

(** ** base64 *)

Definition base64_char (v : Z) : Z :=
  if v <? 26 then 65 + v
  else if v <? 52 then 71 + v
  else if v <? 62 then v - 4
  else if v =? 62 then 43
  else 47.

(** The value of a character of the alphabet; the URL-safe characters
    [-] and [_] are accepted as well. *)
Definition unbase64 (c : Z) : option Z :=
  if (65 <=? c) && (c <=? 90) then Some (c - 65)
  else if (97 <=? c) && (c <=? 122) then Some (c - 71)
  else if (48 <=? c) && (c <=? 57) then Some (c + 4)
  else if (c =? 43) || (c =? 45) then Some 62
  else if (c =? 47) || (c =? 95) then Some 63
  else None.

Definition pad : Z := 61.

(** [buffer.toString('base64')] *)
Fixpoint base64_encode (bs : list byte) : jsstring :=
  match bs with
  | [] => []
  | [a] =>
      let a := byte.unsigned a in
      [base64_char (a / 4); base64_char (a mod 4 * 16); pad; pad]
  | [a; b] =>
      let a := byte.unsigned a in
      let b := byte.unsigned b in
      [base64_char (a / 4); base64_char (a mod 4 * 16 + b / 16);
       base64_char (b mod 16 * 4); pad]
  | a :: b :: c :: rest =>
      let a := byte.unsigned a in
      let b := byte.unsigned b in
      let c := byte.unsigned c in
      [base64_char (a / 4); base64_char (a mod 4 * 16 + b / 16);
       base64_char (b mod 16 * 4 + c / 64); base64_char (c mod 64)]
        ++ base64_encode rest
  end.

(** The decoder reads the low byte of each code unit; it skips the
    characters outside the alphabet and stops at the first padding
    character. *)
Fixpoint base64_sextets (s : jsstring) : list Z :=
  match s with
  | [] => []
  | c :: rest =>
      let c := Z.land c 0xFF in
      if c =? pad then []
      else match unbase64 c with
           | Some v => v :: base64_sextets rest
           | None => base64_sextets rest
           end
  end.

Fixpoint base64_bytes (l : list Z) : list byte :=
  match l with
  | a :: b :: c :: d :: rest =>
      [byte.of_Z (a * 4 + b / 16); byte.of_Z (b mod 16 * 16 + c / 4);
       byte.of_Z (c mod 4 * 64 + d)] ++ base64_bytes rest
  | [a; b; c] => [byte.of_Z (a * 4 + b / 16); byte.of_Z (b mod 16 * 16 + c / 4)]
  | [a; b] => [byte.of_Z (a * 4 + b / 16)]
  | _ => []
  end.

(** [Buffer.from(string, 'base64')] *)
Definition base64_decode (s : jsstring) : list byte :=
  base64_bytes (base64_sextets s).

(** ** Lemmas: binary32 *)

Lemma digits2_pos_gt (m : positive) : Zpos m < 2 ^ Zpos (digits2_pos m).
Proof.
  rewrite digits2_pos_size, <- Pos2Z.inj_pow. apply Pos2Z.pos_lt_pos, Pos.size_gt.
Qed.

(** What the validity of a finite binary32 value says of its fields. *)
Lemma bounded_binary32 (m : positive) (e : Z) :
  bounded 24 128 m e = true ->
  canonical_mantissa 24 128 m e = true /\
  -149 <= e <= 104 /\ Zpos m < 2 ^ 24 /\ (Zpos m < 2 ^ 23 -> e = -149).
Proof.
  unfold bounded. rewrite andb_true_iff. intros [Hc He].
  split; [assumption|].
  unfold canonical_mantissa, fexp, emin in Hc.
  apply Z.eqb_eq in Hc. apply Z.leb_le in He.
  pose proof (digits2_pos_gt m) as Hgt.
  split; [lia|]. split.
  - assert (Zpos (digits2_pos m) <= 24) by lia.
    assert (2 ^ Zpos (digits2_pos m) <= 2 ^ 24) by (apply Z.pow_le_mono_r; lia).
    lia.
  - intros Hm. pose proof (digits2_pos_bound m 23 ltac:(lia) Hm). lia.
Qed.

Lemma binary32_of_bits_of_binary32 (f : spec_float) :
  valid_binary 24 128 f = true -> binary32_of_bits (bits_of_binary32 f) = f.
Proof.
  destruct f as [s|s| |s m e].
  - intros _; destruct s; vm_compute; reflexivity.
  - intros _; destruct s; vm_compute; reflexivity.
  - intros _; vm_compute; reflexivity.
  - cbn [valid_binary]. intros Hb.
    destruct (bounded_binary32 m e Hb) as (_ & He & Hm & Hsub).
    unfold bits_of_binary32, binary32_of_bits, sign_bit.
    change (2 ^ 23) with 8388608 in *. change (2 ^ 24) with 16777216 in *.
    change (2 ^ 31) with 2147483648. change (2 ^ 8) with 256.
    destruct (Z.leb_spec 8388608 (Zpos m)) as [Hn|Hn].
    + set (z := (if s then 2147483648 else 0) + (e + 150) * 8388608
                + (Zpos m - 8388608)).
      assert (Hs : (2147483648 <=? z) = s)
        by (subst z; destruct s; [apply Z.leb_le|apply Z.leb_gt]; lia).
      assert (Hex : z / 8388608 mod 256 = e + 150)
        by (subst z; destruct s; Z.div_mod_to_equations; lia).
      assert (Hmx : z mod 8388608 = Zpos m - 8388608)
        by (subst z; destruct s; Z.div_mod_to_equations; lia).
      rewrite Hs, Hex, Hmx.
      destruct (Z.eqb_spec (e + 150) 0); [lia|].
      destruct (Z.eqb_spec (e + 150) 255); [lia|].
      replace (Zpos m - 8388608 + 8388608) with (Zpos m) by lia.
      f_equal. lia.
    + specialize (Hsub Hn). subst e.
      set (z := (if s then 2147483648 else 0) + Zpos m).
      assert (Hs : (2147483648 <=? z) = s)
        by (subst z; destruct s; [apply Z.leb_le|apply Z.leb_gt]; lia).
      assert (Hex : z / 8388608 mod 256 = 0)
        by (subst z; destruct s; Z.div_mod_to_equations; lia).
      assert (Hmx : z mod 8388608 = Zpos m)
        by (subst z; destruct s; Z.div_mod_to_equations; lia).
      rewrite Hs, Hex, Hmx. reflexivity.
Qed.

Lemma bits_of_binary32_range (f : spec_float) :
  valid_binary 24 128 f = true -> 0 <= bits_of_binary32 f < 2 ^ 32.
Proof.
  destruct f as [s|s| |s m e].
  - intros _; destruct s; vm_compute; intuition congruence.
  - intros _; destruct s; vm_compute; intuition congruence.
  - intros _; vm_compute; intuition congruence.
  - cbn [valid_binary]. intros Hb.
    destruct (bounded_binary32 m e Hb) as (_ & He & Hm & Hsub).
    unfold bits_of_binary32, sign_bit.
    change (2 ^ 23) with 8388608 in *. change (2 ^ 24) with 16777216 in *.
    change (2 ^ 31) with 2147483648. change (2 ^ 32) with 4294967296.
    destruct (Z.leb_spec 8388608 (Zpos m)); destruct s; lia.
Qed.

(** A binary32 value, made a number and rounded to binary32 again, is
    unchanged. *)
Lemma to_binary32_of_binary32 (f : spec_float) :
  valid_binary 24 128 f = true -> to_binary32 (of_binary32 f) = f.
Proof.
  destruct f as [s|s| |s m e]; try reflexivity.
  cbn [valid_binary]. intros Hb.
  destruct (bounded_binary32 m e Hb) as (Hc & He & Hm & _).
  pose proof (digits2_pos_bound m 24 ltac:(lia) Hm) as Hd.
  assert (0 < Zpos (digits2_pos m)) by lia.
  unfold of_binary32. rewrite binary_round_widen by lia.
  unfold to_binary32.
  replace (e + Zpos (digits2_pos m) - 53)
    with (e - Zpos (Z.to_pos (53 - Zpos (digits2_pos m))))
    by (rewrite Z2Pos.id; lia).
  apply binary_round_narrow; [assumption|lia].
Qed.

(** ** Lemmas: UTF-8 *)

Lemma unsigned_of_Z_small (z : Z) :
  0 <= z < 256 -> byte.unsigned (byte.of_Z z) = z.
Proof.
  intros H. rewrite byte.unsigned_of_Z. unfold byte.wrap.
  apply Z.mod_small. change (2 ^ 8) with 256. lia.
Qed.

Ltac cmp :=
  repeat match goal with
  | |- context [?a <=? ?b] =>
      destruct (Z.leb_spec a b); try (exfalso; Z.div_mod_to_equations; lia)
  | |- context [?a <? ?b] =>
      destruct (Z.ltb_spec a b); try (exfalso; Z.div_mod_to_equations; lia)
  | |- context [?a =? ?b] =>
      destruct (Z.eqb_spec a b); try (exfalso; Z.div_mod_to_equations; lia)
  end; cbn [andb orb negb].

Lemma utf8_lead_ascii (b : Z) :
  0 <= b <= 0x7F -> utf8_lead b = ([b], utf8_start).
Proof. intros H. unfold utf8_lead. now cmp. Qed.

Lemma utf8_lead_2 (b : Z) :
  0xC2 <= b <= 0xDF ->
  utf8_lead b
  = ([], {| code_point := b - 0xC0; needed := 1; lower := 0x80; upper := 0xBF |}).
Proof. intros H. unfold utf8_lead. now cmp. Qed.

Lemma utf8_lead_3 (b : Z) :
  0xE0 <= b <= 0xEF ->
  utf8_lead b
  = ([], {| code_point := b - 0xE0; needed := 2;
            lower := if b =? 0xE0 then 0xA0 else 0x80;
            upper := if b =? 0xED then 0x9F else 0xBF |}).
Proof.
  intros H. unfold utf8_lead.
  destruct (Z.leb_spec b 0x7F); [lia|].
  destruct (Z.leb_spec 0xC2 b), (Z.leb_spec b 0xDF); try lia; cbn [andb].
  all: destruct (Z.leb_spec 0xE0 b), (Z.leb_spec b 0xEF); try lia; reflexivity.
Qed.

Lemma utf8_lead_4 (b : Z) :
  0xF0 <= b <= 0xF4 ->
  utf8_lead b
  = ([], {| code_point := b - 0xF0; needed := 3;
            lower := if b =? 0xF0 then 0x90 else 0x80;
            upper := if b =? 0xF4 then 0x8F else 0xBF |}).
Proof.
  intros H. unfold utf8_lead.
  destruct (Z.leb_spec b 0x7F); [lia|].
  destruct (Z.leb_spec 0xC2 b), (Z.leb_spec b 0xDF); try lia; cbn [andb].
  all: destruct (Z.leb_spec 0xE0 b), (Z.leb_spec b 0xEF); try lia; cbn [andb].
  all: destruct (Z.leb_spec 0xF0 b), (Z.leb_spec b 0xF4); try lia; reflexivity.
Qed.

Lemma utf8_step_continue (st : utf8_state) (b : Z) (n : nat) :
  needed st = S n -> lower st <= b <= upper st ->
  utf8_step st b
  = match n with
    | O => ([code_point st * 64 + (b - 0x80)], utf8_start)
    | S _ => ([], {| code_point := code_point st * 64 + (b - 0x80);
                     needed := n; lower := 0x80; upper := 0xBF |})
    end.
Proof.
  intros Hn H. unfold utf8_step. rewrite Hn.
  destruct (Z.leb_spec (lower st) b), (Z.leb_spec b (upper st)); try lia.
  reflexivity.
Qed.

(** A code point that is not a surrogate. *)
Definition scalar (cp : Z) : Prop :=
  0 <= cp <= 0x10FFFF /\ ~ (0xD800 <= cp <= 0xDFFF).

Lemma utf8_run_bytes (cp : Z) (rest : list byte) :
  scalar cp ->
  utf8_run utf8_start (utf8_bytes cp ++ rest) = cp :: utf8_run utf8_start rest.
Proof.
  intros [Hr Hs]. unfold utf8_bytes.
  destruct (Z.ltb_spec cp 0x80); [|destruct (Z.ltb_spec cp 0x800);
    [|destruct (Z.ltb_spec cp 0x10000)]]; cbn [app utf8_run].
  - rewrite unsigned_of_Z_small by lia.
    unfold utf8_step. cbn [needed utf8_start].
    rewrite utf8_lead_ascii by lia. reflexivity.
  - rewrite !unsigned_of_Z_small by (Z.div_mod_to_equations; lia).
    unfold utf8_step at 1. cbn [needed utf8_start].
    rewrite utf8_lead_2 by (Z.div_mod_to_equations; lia).
    rewrite (utf8_step_continue _ _ 0) by
      (cbn [needed lower upper]; try reflexivity; Z.div_mod_to_equations; lia).
    cbn [code_point app]. f_equal. Z.div_mod_to_equations; lia.
  - rewrite !unsigned_of_Z_small by (Z.div_mod_to_equations; lia).
    unfold utf8_step at 1. cbn [needed utf8_start].
    rewrite utf8_lead_3 by (Z.div_mod_to_equations; lia).
    rewrite (utf8_step_continue _ _ 1).
    2: reflexivity.
    2: { cbn [lower upper].
         destruct (Z.eqb_spec (224 + cp / 4096) 224),
           (Z.eqb_spec (224 + cp / 4096) 237); Z.div_mod_to_equations; lia. }
    rewrite (utf8_step_continue _ _ 0) by
      (cbn [needed lower upper]; try reflexivity; Z.div_mod_to_equations; lia).
    cbn [code_point app]. f_equal. Z.div_mod_to_equations; lia.
  - rewrite !unsigned_of_Z_small by (Z.div_mod_to_equations; lia).
    unfold utf8_step at 1. cbn [needed utf8_start].
    rewrite utf8_lead_4 by (Z.div_mod_to_equations; lia).
    rewrite (utf8_step_continue _ _ 2).
    2: reflexivity.
    2: { cbn [lower upper].
         destruct (Z.eqb_spec (240 + cp / 262144) 240),
           (Z.eqb_spec (240 + cp / 262144) 244); Z.div_mod_to_equations; lia. }
    rewrite (utf8_step_continue _ _ 1) by
      (cbn [needed lower upper]; try reflexivity; Z.div_mod_to_equations; lia).
    rewrite (utf8_step_continue _ _ 0) by
      (cbn [needed lower upper]; try reflexivity; Z.div_mod_to_equations; lia).
    cbn [code_point app]. f_equal. Z.div_mod_to_equations; lia.
Qed.

Lemma utf8_decode_bytes (cp : Z) (rest : list byte) :
  scalar cp ->
  utf8_decode (utf8_bytes cp ++ rest) = code_units cp ++ utf8_decode rest.
Proof.
  intros H. unfold utf8_decode. now rewrite utf8_run_bytes.
Qed.

Lemma utf8_decode_encode_aux (n : nat) (s : jsstring) :
  (length s <= n)%nat -> well_formed s = true ->
  utf8_decode (utf8_encode s) = s.
Proof.
  revert s. induction n as [|n IH]; intros s Hn Hwf.
  - destruct s; [reflexivity|simpl in Hn; lia].
  - destruct s as [|c rest]; [reflexivity|].
    cbn [well_formed utf8_encode] in *.
    apply andb_true_iff in Hwf. destruct Hwf as [Hc Hwf].
    apply andb_true_iff in Hc. destruct Hc as [Hc0 Hc1].
    apply Z.leb_le in Hc0, Hc1.
    unfold is_high_surrogate, is_low_surrogate in *.
    destruct (Z.leb_spec 0xD800 c), (Z.leb_spec c 0xDBFF); cbn [andb] in *.
    + destruct rest as [|d rest']; [discriminate|].
      apply andb_true_iff in Hwf. destruct Hwf as [Hd Hwf].
      rewrite Hd. apply andb_true_iff in Hd. destruct Hd as [Hd0 Hd1].
      apply Z.leb_le in Hd0, Hd1.
      rewrite utf8_decode_bytes by (unfold scalar; lia).
      rewrite IH by (simpl in Hn; auto; lia).
      unfold code_units.
      destruct (Z.ltb_spec (0x10000 + (c - 0xD800) * 0x400 + (d - 0xDC00)) 0x10000);
        [lia|].
      cbn [app]. f_equal; [|f_equal]; Z.div_mod_to_equations; lia.
    + destruct (Z.leb_spec 0xDC00 c), (Z.leb_spec c 0xDFFF);
        cbn [andb negb] in *; try discriminate; try lia.
      all: rewrite utf8_decode_bytes by (unfold scalar; lia).
      all: rewrite IH by (simpl in Hn; auto; lia).
      all: unfold code_units; destruct (Z.ltb_spec c 0x10000); [reflexivity|lia].
    + destruct (Z.leb_spec 0xDC00 c), (Z.leb_spec c 0xDFFF);
        cbn [andb negb] in *; try discriminate; try lia.
      all: rewrite utf8_decode_bytes by (unfold scalar; lia).
      all: rewrite IH by (simpl in Hn; auto; lia).
      all: unfold code_units; destruct (Z.ltb_spec c 0x10000); [reflexivity|lia].
    + lia.
Qed.

(** Decoding the UTF-8 bytes of a well-formed string gives the string
    back. *)
Lemma utf8_decode_encode (s : jsstring) :
  well_formed s = true -> utf8_decode (utf8_encode s) = s.
Proof. apply (utf8_decode_encode_aux (length s)); lia. Qed.

(** ** Lemmas: base64 *)

Lemma unbase64_char (v : Z) :
  0 <= v < 64 -> unbase64 (base64_char v) = Some v /\ base64_char v <> pad.
Proof.
  intros Hv. unfold unbase64, base64_char, pad.
  destruct (Z.ltb_spec v 26); [|destruct (Z.ltb_spec v 52);
    [|destruct (Z.ltb_spec v 62); [|destruct (Z.eqb_spec v 62)]]].
  all: repeat match goal with
       | |- context [?a <=? ?b] => destruct (Z.leb_spec a b); try lia
       | |- context [?a =? ?b] => destruct (Z.eqb_spec a b); try lia
       end; cbn [andb orb]; split; try lia; f_equal; lia.
Qed.

Lemma base64_char_low_byte (v : Z) :
  0 <= v < 64 -> Z.land (base64_char v) 0xFF = base64_char v.
Proof.
  intros Hv. change 0xFF with (Z.ones 8). rewrite Z.land_ones by lia.
  apply Z.mod_small. change (2 ^ 8) with 256. unfold base64_char.
  destruct (Z.ltb_spec v 26); [lia|]. destruct (Z.ltb_spec v 52); [lia|].
  destruct (Z.ltb_spec v 62); [lia|]. destruct (Z.eqb_spec v 62); lia.
Qed.

Lemma base64_sextets_char (v : Z) (s : jsstring) :
  0 <= v < 64 ->
  base64_sextets (base64_char v :: s) = v :: base64_sextets s.
Proof.
  intros Hv. destruct (unbase64_char v Hv) as [E N].
  cbn [base64_sextets]. cbv zeta. rewrite (base64_char_low_byte v Hv).
  destruct (Z.eqb_spec (base64_char v) pad); [contradiction|].
  now rewrite E.
Qed.

Lemma base64_sextets_pad (s : jsstring) : base64_sextets (pad :: s) = [].
Proof. reflexivity. Qed.

Lemma of_Z_eq (b : byte) (z : Z) : z = byte.unsigned b -> byte.of_Z z = b.
Proof. intros ->. apply byte.of_Z_unsigned. Qed.

Lemma base64_decode_encode_aux (n : nat) (bs : list byte) :
  (length bs <= n)%nat -> base64_decode (base64_encode bs) = bs.
Proof.
  revert bs. induction n as [|n IH]; intros bs Hn.
  - destruct bs; [reflexivity|simpl in Hn; lia].
  - destruct bs as [|a [|b [|c rest]]].
    + reflexivity.
    + unfold base64_decode. cbn [base64_encode].
      pose proof (byte.unsigned_range a) as Ha. change (2 ^ 8) with 256 in Ha.
      rewrite !base64_sextets_char, base64_sextets_pad
        by (Z.div_mod_to_equations; lia).
      cbn [base64_bytes]. f_equal. apply of_Z_eq.
      Z.div_mod_to_equations; lia.
    + unfold base64_decode. cbn [base64_encode].
      pose proof (byte.unsigned_range a) as Ha. change (2 ^ 8) with 256 in Ha.
      pose proof (byte.unsigned_range b) as Hb. change (2 ^ 8) with 256 in Hb.
      rewrite !base64_sextets_char, base64_sextets_pad
        by (Z.div_mod_to_equations; lia).
      cbn [base64_bytes]. f_equal; [|f_equal]; apply of_Z_eq;
        Z.div_mod_to_equations; lia.
    + unfold base64_decode in *. cbn [base64_encode].
      pose proof (byte.unsigned_range a) as Ha. change (2 ^ 8) with 256 in Ha.
      pose proof (byte.unsigned_range b) as Hb. change (2 ^ 8) with 256 in Hb.
      pose proof (byte.unsigned_range c) as Hc. change (2 ^ 8) with 256 in Hc.
      cbn [app].
      rewrite !base64_sextets_char by (Z.div_mod_to_equations; lia).
      cbn [base64_bytes app].
      rewrite IH by (simpl in Hn; lia).
      f_equal; [|f_equal; [|f_equal]]; apply of_Z_eq;
        Z.div_mod_to_equations; lia.
Qed.

(** Decoding the base64 text of a buffer gives the buffer back. *)
Lemma base64_decode_encode (bs : list byte) :
  base64_decode (base64_encode bs) = bs.
Proof. apply (base64_decode_encode_aux (length bs)); lia. Qed.

End Buffer.
Import Buffer.

(* ===================================================================== *)
(** * UUID conversion *)
(* ===================================================================== *)

Module Uuid.

Definition dash : Z := 45.

Section Host.

(** [String.prototype.toLowerCase] and [String.prototype.toUpperCase] of the
    host; the Unicode case tables they consult are not part of the module. *)
Variable toLowerCase : jsstring -> jsstring.
Variable toUpperCase : jsstring -> jsstring.

(** [uuid.toLowerCase().replace(/-/g, '')] *)
Definition uuidToNobleUuid (uuid : jsstring) : jsstring :=
  remove_all dash (toLowerCase uuid).

Definition nobleUuidToUuid (uuid : jsstring) : jsstring :=
  let uuid := toUpperCase uuid in
  if negb (length uuid =? 32)%nat then uuid
  else
    let parts :=
      [ substring uuid 0 8;
        substring uuid 8 12;
        substring uuid 12 16;
        substring uuid 16 20;
        substring uuid 20 32 ] in
    join [dash] parts.

(** The five groups of a 32-character string are its consecutive pieces. *)
Lemma substring_piece (pre mid post : jsstring) :
  substring (pre ++ mid ++ post) (length pre) (length pre + length mid) = mid.
Proof.
  unfold substring. rewrite !length_app.
  replace (Nat.min (length pre) (length pre + (length mid + length post)))
    with (length pre) by lia.
  replace (Nat.min (length pre + length mid)
             (length pre + (length mid + length post)))
    with (length pre + length mid)%nat by lia.
  replace (Nat.min (length pre) (length pre + length mid)) with (length pre)
    by lia.
  replace (Nat.max (length pre) (length pre + length mid) - length pre)%nat
    with (length mid) by lia.
  rewrite skipn_app, skipn_all, Nat.sub_diag. simpl.
  rewrite firstn_app, firstn_all, Nat.sub_diag. simpl.
  apply app_nil_r.
Qed.

Lemma remove_all_app (c : Z) (a b : jsstring) :
  remove_all c (a ++ b) = remove_all c a ++ remove_all c b.
Proof. apply filter_app. Qed.

Lemma remove_all_map_stable (lc : Z -> Z) (c : Z) (s : jsstring) :
  Forall (fun x => lc (lc x) = lc x) s ->
  remove_all c (map lc (remove_all c (map lc s))) = remove_all c (map lc s).
Proof.
  induction 1 as [|x s Hx _ IH]; simpl; [reflexivity|].
  destruct (lc x =? c) eqn:E; simpl; [exact IH|].
  rewrite Hx, E. simpl. now rewrite IH.
Qed.

End Host.

(** The module on ASCII input, where the host's case conversions are the
    letter mappings. *)
Example uuidToNobleUuid_2A37 :
  uuidToNobleUuid (map ascii_lower) (js "2A37") = js "2a37".
Proof. reflexivity. Qed.

Example nobleUuidToUuid_abc :
  nobleUuidToUuid (map ascii_upper) (js "abc") = js "ABC".
Proof. reflexivity. Qed.

Example nobleUuidToUuid_heart_rate :
  nobleUuidToUuid (map ascii_upper) (js "0000180d00001000800000805f9b34fb")
  = js "0000180D-0000-1000-8000-00805F9B34FB".
Proof. reflexivity. Qed.

Example uuidToNobleUuid_heart_rate :
  uuidToNobleUuid (map ascii_lower) (js "0000180D-0000-1000-8000-00805F9B34FB")
  = js "0000180d00001000800000805f9b34fb".
Proof. reflexivity. Qed.

End Uuid.

(* ===================================================================== *)
(** * The value codec *)
(* ===================================================================== *)

Module Codec.

Section Host.

(** The host's conversion of a string to a number (the grammar of numeric
    literals); the module meets it only when a string or a buffer is packed
    in a numeric format. *)
Variable StringToNumber : jsstring -> number.

(** [+value] *)
Definition ToNumber (v : value) : number :=
  match v with
  | VUndefined => S754_nan
  | VNull => of_Z 0
  | VBool b => of_Z (if b then 1 else 0)
  | VNum n => n
  | VStr s => StringToNumber s
  | VBuf b => StringToNumber (utf8_decode b)
  end.

(** [Buffer.from(value)] *)
Definition Buffer_from (v : value) : completion buffer :=
  match v with
  | VStr s => Return (utf8_encode s)
  | VBuf b => Return b
  | _ => Throw TypeError
  end.

Definition unknown_format (format : jsstring) : exn :=
  Error (js "Unknown format type: " ++ format).

Definition bufferToValue (buffer : buffer) (format : jsstring) : completion value :=
  if streq format (js "bool") then
    bind (readUInt8 buffer 0) (fun n => Return (VBool (negb (SFeqb n (of_Z 0)))))
  else if streq format (js "uint8") then
    bind (readUInt8 buffer 0) (fun n => Return (VNum n))
  else if streq format (js "uint16") then
    bind (readUInt16LE buffer 0) (fun n => Return (VNum n))
  else if streq format (js "uint32") then
    bind (readUInt32LE buffer 0) (fun n => Return (VNum n))
  else if streq format (js "uint64") then
    bind (readUInt32LE buffer 0) (fun lo =>
      if truthy lo then Return (VNum lo)
      else bind (readUInt32LE buffer 4) (fun hi =>
             Return (VNum (shl hi (of_Z 32)))))
  else if streq format (js "int") then
    bind (readInt32LE buffer 0) (fun n => Return (VNum n))
  else if streq format (js "float") then
    bind (readFloatLE buffer 0) (fun n => Return (VNum n))
  else if streq format (js "string") then
    Return (VStr (utf8_decode buffer))
  else if streq format (js "data") then
    Return (VStr (base64_encode buffer))
  else Throw (unknown_format format).

Definition valueToBuffer (value : value) (format : jsstring) : completion JSValue.value :=
  if streq format (js "bool") then
    Return (VBuf (from_array [of_Z (if ToBoolean value then 1 else 0)]))
  else if streq format (js "uint8") then
    Return (VBuf (from_array [bitand (ToNumber value) (of_Z 0xff)]))
  else if streq format (js "uint16") then
    let b := alloc 2 in
    bind (writeUInt16LE b (ToNumber value) 0) (fun b => Return (VBuf b))
  else if streq format (js "uint32") then
    let b := alloc 4 in
    bind (writeUInt32LE b (ToNumber value) 0) (fun b => Return (VBuf b))
  else if streq format (js "uint64") then
    let b := alloc 8 in
    bind (writeUInt32LE b (bitand (ToNumber value) (of_Z 0xffffffff)) 0) (fun b =>
    bind (writeUInt32LE b (sar (ToNumber value) (of_Z 32)) 4) (fun b =>
    Return (VBuf b)))
  else if streq format (js "int") then
    let b := alloc 4 in
    bind (writeInt32LE b (ToNumber value) 0) (fun b => Return (VBuf b))
  else if streq format (js "float") then
    let b := alloc 4 in
    bind (writeFloatLE b (ToNumber value) 0) (fun b => Return (VBuf b))
  else if streq format (js "string") then
    bind (Buffer_from value) (fun b => Return (VBuf b))
  else if streq format (js "data") then
    match value with
    | VStr s => Return (VBuf (base64_decode s))
    | _ => Return value
    end
  else Throw (unknown_format format).

End Host.

(** The format tags of the module. *)
Definition formats : list jsstring :=
  map js ["bool"; "uint8"; "uint16"; "uint32"; "uint64"; "int"; "float";
          "string"; "data"]%string.

(** The bytes a fixed-width format reads. *)
Definition width (format : jsstring) : nat :=
  if streq format (js "bool") then 1
  else if streq format (js "uint8") then 1
  else if streq format (js "uint16") then 2
  else if streq format (js "uint32") then 4
  else if streq format (js "uint64") then 8
  else if streq format (js "int") then 4
  else if streq format (js "float") then 4
  else 0.

Definition finite (f : spec_float) : bool :=
  match f with
  | S754_zero _ | S754_finite _ _ _ => true
  | _ => false
  end.

(** The values a format represents exactly. *)
Inductive representable : jsstring -> value -> Prop :=
| rep_bool (b : bool) :
    representable (js "bool") (VBool b)
| rep_uint8 (z : Z) :
    0 <= z <= 255 -> representable (js "uint8") (VNum (of_Z z))
| rep_uint16 (z : Z) :
    0 <= z <= 65535 -> representable (js "uint16") (VNum (of_Z z))
| rep_uint32 (z : Z) :
    0 <= z <= 2 ^ 32 - 1 -> representable (js "uint32") (VNum (of_Z z))
| rep_int (z : Z) :
    - 2 ^ 31 <= z <= 2 ^ 31 - 1 -> representable (js "int") (VNum (of_Z z))
| rep_float (f : spec_float) :
    valid_binary 24 128 f = true -> finite f = true ->
    representable (js "float") (VNum (of_binary32 f))
| rep_string (s : jsstring) :
    well_formed s = true -> representable (js "string") (VStr s)
| rep_data (bytes : list byte) :
    representable (js "data") (VStr (base64_encode bytes)).

(** ** Lemmas *)

Lemma slice_at_fits (b : buffer) (offset n : nat) :
  (offset + n <= length b)%nat ->
  slice_at b offset n = Return (firstn n (skipn offset b)).
Proof.
  intros H. unfold slice_at.
  destruct (Nat.leb_spec (offset + n) (length b)); [reflexivity|lia].
Qed.

Lemma slice_at_short (b : buffer) (offset n : nat) :
  (length b < offset + n)%nat -> slice_at b offset n = Throw RangeError.
Proof.
  intros H. unfold slice_at.
  destruct (Nat.leb_spec (offset + n) (length b)); [lia|reflexivity].
Qed.

Lemma slice_at_all (b : buffer) : slice_at b 0 (length b) = Return b.
Proof.
  rewrite slice_at_fits by (simpl; lia). simpl. now rewrite firstn_all.
Qed.

Lemma store_at_alloc (bytes : list byte) :
  store_at (alloc (length bytes)) 0 bytes = Return bytes.
Proof.
  unfold store_at, alloc. rewrite repeat_length. simpl.
  rewrite Nat.leb_refl. rewrite skipn_all2 by (rewrite repeat_length; lia).
  now rewrite app_nil_r.
Qed.

(** An integer of the field's range is written as its low bytes. *)
Lemma write_int_in_range (n : nat) (min max z : Z) :
  - 2 ^ 52 < z < 2 ^ 52 -> min <= z <= max ->
  write_int n min max (alloc n) (of_Z z) 0 = Return (le_split n z).
Proof.
  intros Hs Hr. unfold write_int.
  rewrite gtb_Z_of_Z, ltb_Z_of_Z, truncate_of_Z by assumption.
  destruct (Z.ltb_spec max z), (Z.ltb_spec z min); try lia. simpl orb. cbv iota.
  rewrite <- (length_le_split n z) at 1. apply store_at_alloc.
Qed.

Lemma read_le_split (n : nat) (z : Z) :
  0 <= z < 2 ^ (Z.of_nat n * 8) ->
  bind (slice_at (le_split n z) 0 n)
       (fun bs => Return (of_Z (le_combine bs))) = Return (of_Z z).
Proof.
  intros H. rewrite <- (length_le_split n z) at 2. rewrite slice_at_all.
  simpl. rewrite le_combine_split, Z.mod_small by assumption. reflexivity.
Qed.

(** The tags outside the module's formats fail every test of the
    [switch]. *)
Lemma unknown_tests (format : jsstring) :
  ~ In format formats ->
  forall t, In t formats -> streq format t = false.
Proof.
  intros Hn t Ht. apply streq_neq. intros ->. contradiction.
Qed.

Lemma known_cases (format : jsstring) :
  In format formats ->
  format = js "bool" \/ format = js "uint8" \/ format = js "uint16" \/
  format = js "uint32" \/ format = js "uint64" \/ format = js "int" \/
  format = js "float" \/ format = js "string" \/ format = js "data".
Proof.
  unfold formats. cbn [map In]. intuition.
Qed.

Lemma In_formats_dec (format : jsstring) :
  In format formats \/ ~ In format formats.
Proof.
  destruct (existsb (streq format) formats) eqn:E.
  - left. apply existsb_exists in E. destruct E as (t & Ht & E).
    apply streq_eq in E. now subst.
  - right. intros H.
    assert (existsb (streq format) formats = true)
      by (apply existsb_exists; exists format; split; [assumption|apply streq_refl]).
    congruence.
Qed.

Ltac known_format H :=
  apply known_cases in H;
  repeat (destruct H as [H|H]); subst.

Ltac unknown_format H :=
  pose proof (unknown_tests _ H) as Htests;
  rewrite ?Htests by (unfold formats; cbn [map In]; tauto).

Lemma bufferToValue_unknown (b : buffer) (format : jsstring) :
  ~ In format formats -> bufferToValue b format = Throw (unknown_format format).
Proof.
  intros H. unfold bufferToValue. unknown_format H. reflexivity.
Qed.

Lemma valueToBuffer_unknown S2N (v : value) (format : jsstring) :
  ~ In format formats -> valueToBuffer S2N v format = Throw (unknown_format format).
Proof.
  intros H. unfold valueToBuffer. unknown_format H. reflexivity.
Qed.

Lemma bind_not_Error {A B} (c : completion A) (k : A -> completion B) msg :
  c <> Throw (Error msg) ->
  (forall a, k a <> Throw (Error msg)) ->
  bind c k <> Throw (Error msg).
Proof.
  destruct c; simpl; intros H1 H2; [apply H2|].
  intros [= ->]. now apply H1.
Qed.

Lemma slice_at_not_Error b off n msg : slice_at b off n <> Throw (Error msg).
Proof. unfold slice_at. destruct (_ <=? _)%nat; discriminate. Qed.

Lemma store_at_not_Error b off bs msg : store_at b off bs <> Throw (Error msg).
Proof. unfold store_at. destruct (_ <=? _)%nat; discriminate. Qed.

Lemma write_int_not_Error n min max b v off msg :
  write_int n min max b v off <> Throw (Error msg).
Proof.
  unfold write_int. destruct (_ || _); [discriminate|apply store_at_not_Error].
Qed.

(** With a tag of the source text the tests of the [switch] compute. *)
Ltac switch_on_tag :=
  repeat match goal with
  | |- context [streq ?a ?b] =>
      let r := eval vm_compute in (streq a b) in
      change (streq a b) with r
  end; cbv iota.

Ltac run_completion :=
  repeat first
    [ progress cbn [bind]
    | match goal with
      | |- context [(?a <=? ?b)%nat] => destruct (a <=? b)%nat
      | |- context [if truthy ?x then _ else _] => destruct (truthy x)
      | |- context [if ?a || ?b then _ else _] => destruct (a || b)
      end ].

Lemma bufferToValue_known (b : buffer) (format : jsstring) (msg : jsstring) :
  In format formats -> bufferToValue b format <> Throw (Error msg).
Proof.
  intros H. known_format H; unfold bufferToValue; switch_on_tag;
    unfold readUInt8, readUInt16LE, readUInt32LE, readInt32LE, readFloatLE,
      slice_at;
    run_completion; discriminate.
Qed.

Lemma valueToBuffer_known S2N (v : value) (format : jsstring) (msg : jsstring) :
  In format formats -> valueToBuffer S2N v format <> Throw (Error msg).
Proof.
  intros H. known_format H; unfold valueToBuffer; switch_on_tag;
    unfold writeUInt16LE, writeUInt32LE, writeInt32LE, writeFloatLE,
      write_int, store_at, Buffer_from;
    try (destruct v); run_completion; discriminate.
Qed.

(** A buffer that holds the bytes of the format decodes. *)
Lemma bufferToValue_returns (b : buffer) (format : jsstring) :
  In format formats -> (width format <= length b)%nat ->
  exists v, bufferToValue b format = Return v.
Proof.
  intros H. known_format H; unfold bufferToValue, width; switch_on_tag;
    unfold readUInt8, readUInt16LE, readUInt32LE, readInt32LE, readFloatLE;
    intros Hlen; rewrite ?slice_at_fits by (simpl; lia); cbn [bind];
    try (destruct (truthy _)); eauto.
Qed.

Lemma wrap_signed_mod (z : Z) : wrap_signed 32 (z mod 2 ^ 32) = wrap_signed 32 z.
Proof.
  unfold wrap_signed. now rewrite Z.add_mod_idemp_l by (apply Z.pow_nonzero; lia).
Qed.

Lemma bitand_byte_mask (z : Z) :
  0 <= z <= 255 -> bitand (of_Z z) (of_Z 0xff) = of_Z z.
Proof.
  intros H. unfold bitand.
  rewrite !ToInt32_of_Z by (change (2 ^ 52) with 4503599627370496; lia).
  rewrite !wrap_signed_small by (change (2 ^ (32 - 1)) with 2147483648; lia).
  change 255 with (Z.ones 8). rewrite Z.land_ones by lia.
  now rewrite Z.mod_small by (change (2 ^ 8) with 256; lia).
Qed.

(** [x & 0xffffffff], [x >> 32] and [x << 32] all are the 32-bit signed
    integer of [x]: the mask is -1 as a 32-bit integer, and a shift count
    of 32 is a shift by 0. *)
Lemma bitand_word_mask (x : number) :
  bitand x (of_Z 0xffffffff) = of_Z (ToInt32 x).
Proof.
  unfold bitand. replace (ToInt32 (of_Z 0xffffffff)) with (-1) by reflexivity.
  now rewrite Z.land_m1_r.
Qed.

Lemma sar_32 (x : number) : sar x (of_Z 32) = of_Z (ToInt32 x).
Proof.
  unfold sar. replace (ToUint32 (of_Z 32) mod 32) with 0 by reflexivity.
  now rewrite Z.shiftr_0_r.
Qed.

Lemma shl_32 (x : number) : shl x (of_Z 32) = of_Z (ToInt32 x).
Proof.
  unfold shl. replace (ToUint32 (of_Z 32) mod 32) with 0 by reflexivity.
  rewrite Z.shiftl_0_r. unfold ToInt32.
  rewrite wrap_signed_small; [reflexivity|lia|].
  apply wrap_signed_range. lia.
Qed.

(** ** Decoding [uint64] *)

Lemma bufferToValue_uint64 (b : buffer) :
  length b = 8%nat ->
  let lo := le_combine (firstn 4 b) in
  let hi := le_combine (firstn 4 (skipn 4 b)) in
  bufferToValue b (js "uint64")
  = Return (VNum (if lo =? 0 then of_Z (wrap_signed 32 hi) else of_Z lo)).
Proof.
  intros Hlen lo hi. unfold bufferToValue. switch_on_tag.
  unfold readUInt32LE. rewrite !slice_at_fits by lia. cbn [bind].
  change (skipn 0 b) with b. fold lo hi.
  assert (Hlo : 0 <= lo < 2 ^ 32).
  { pose proof (le_combine_bound (firstn 4 b)) as H.
    rewrite firstn_length_le in H by lia. exact H. }
  assert (Hhi : 0 <= hi < 2 ^ 32).
  { pose proof (le_combine_bound (firstn 4 (skipn 4 b))) as H.
    rewrite firstn_length_le in H by (rewrite length_skipn; lia). exact H. }
  change (2 ^ 32) with 4294967296 in *.
  rewrite truthy_of_Z by (change (2 ^ 52) with 4503599627370496; lia).
  destruct (Z.eqb_spec lo 0); cbn [negb]; [|reflexivity].
  rewrite shl_32, ToInt32_of_Z by (change (2 ^ 52) with 4503599627370496; lia).
  reflexivity.
Qed.

(** ** Encoding [uint64] *)

Lemma valueToBuffer_uint64 S2N (z : Z) :
  - 2 ^ 52 < z < 2 ^ 52 ->
  let x := wrap_signed 32 z in
  valueToBuffer S2N (VNum (of_Z z)) (js "uint64")
  = if x <? 0 then Throw RangeError
    else Return (VBuf (le_split 4 x ++ le_split 4 x)).
Proof.
  intros Hz x. unfold valueToBuffer. switch_on_tag. cbn [ToNumber].
  rewrite bitand_word_mask, sar_32, ToInt32_of_Z by assumption. fold x.
  assert (Hx : - 2 ^ 31 <= x < 2 ^ 31) by (apply (wrap_signed_range 32); lia).
  change (2 ^ 31) with 2147483648 in Hx.
  unfold writeUInt32LE, write_int.
  rewrite gtb_Z_of_Z, ltb_Z_of_Z, truncate_of_Z
    by (change (2 ^ 52) with 4503599627370496; lia).
  destruct (Z.ltb_spec (2 ^ 32 - 1) x);
    [change (2 ^ 32) with 4294967296 in *; lia|].
  cbn [orb]. destruct (Z.ltb_spec x 0); [reflexivity|].
  unfold store_at, alloc. cbv [le_split]. reflexivity.
Qed.

Lemma read_le_split_4 (k : Z -> number) (z : Z) :
  bind (slice_at (le_split 4 z) 0 4)
       (fun bs => Return (k (le_combine bs)))
  = Return (k (z mod 2 ^ 32)).
Proof.
  rewrite <- (length_le_split 4 z) at 2. rewrite slice_at_all.
  cbn [bind]. now rewrite le_combine_split.
Qed.

Section Roundtrip.
Variable StringToNumber : jsstring -> number.

Lemma roundtrip_bool (b : bool) :
  valueToBuffer StringToNumber (VBool b) (js "bool")
    = Return (VBuf [if b then Byte.x01 else Byte.x00]) /\
  bufferToValue [if b then Byte.x01 else Byte.x00] (js "bool") = Return (VBool b).
Proof. destruct b; split; vm_compute; reflexivity. Qed.

Lemma roundtrip_uint8 (z : Z) :
  0 <= z <= 255 ->
  valueToBuffer StringToNumber (VNum (of_Z z)) (js "uint8")
    = Return (VBuf (le_split 1 z)) /\
  bufferToValue (le_split 1 z) (js "uint8") = Return (VNum (of_Z z)).
Proof.
  intros H. split.
  - unfold valueToBuffer. switch_on_tag. cbn [ToNumber].
    rewrite bitand_byte_mask by assumption. unfold from_array. cbn [map].
    rewrite truncate_of_Z by (change (2 ^ 52) with 4503599627370496; lia).
    reflexivity.
  - unfold bufferToValue. switch_on_tag. unfold readUInt8.
    rewrite read_le_split by (change (2 ^ (Z.of_nat 1 * 8)) with 256; lia).
    reflexivity.
Qed.

Lemma roundtrip_uint16 (z : Z) :
  0 <= z <= 65535 ->
  valueToBuffer StringToNumber (VNum (of_Z z)) (js "uint16")
    = Return (VBuf (le_split 2 z)) /\
  bufferToValue (le_split 2 z) (js "uint16") = Return (VNum (of_Z z)).
Proof.
  intros H. split.
  - unfold valueToBuffer. switch_on_tag. cbn [ToNumber].
    unfold writeUInt16LE.
    rewrite write_int_in_range
      by (change (2 ^ 52) with 4503599627370496; change (2 ^ 16) with 65536; lia).
    reflexivity.
  - unfold bufferToValue. switch_on_tag. unfold readUInt16LE.
    rewrite read_le_split by (change (2 ^ (Z.of_nat 2 * 8)) with 65536; lia).
    reflexivity.
Qed.

Lemma roundtrip_uint32 (z : Z) :
  0 <= z <= 2 ^ 32 - 1 ->
  valueToBuffer StringToNumber (VNum (of_Z z)) (js "uint32")
    = Return (VBuf (le_split 4 z)) /\
  bufferToValue (le_split 4 z) (js "uint32") = Return (VNum (of_Z z)).
Proof.
  intros H. change (2 ^ 32) with 4294967296 in H. split.
  - unfold valueToBuffer. switch_on_tag. cbn [ToNumber].
    unfold writeUInt32LE.
    rewrite write_int_in_range
      by (change (2 ^ 52) with 4503599627370496; change (2 ^ 32) with 4294967296; lia).
    reflexivity.
  - unfold bufferToValue. switch_on_tag. unfold readUInt32LE.
    rewrite read_le_split by (change (2 ^ (Z.of_nat 4 * 8)) with 4294967296; lia).
    reflexivity.
Qed.

Lemma roundtrip_int (z : Z) :
  - 2 ^ 31 <= z <= 2 ^ 31 - 1 ->
  valueToBuffer StringToNumber (VNum (of_Z z)) (js "int")
    = Return (VBuf (le_split 4 z)) /\
  bufferToValue (le_split 4 z) (js "int") = Return (VNum (of_Z z)).
Proof.
  intros H. change (2 ^ 31) with 2147483648 in H. split.
  - unfold valueToBuffer. switch_on_tag. cbn [ToNumber].
    unfold writeInt32LE.
    rewrite write_int_in_range
      by (change (2 ^ 52) with 4503599627370496; change (2 ^ 31) with 2147483648; lia).
    reflexivity.
  - unfold bufferToValue. switch_on_tag. unfold readInt32LE.
    rewrite (read_le_split_4 (fun w => of_Z (wrap_signed 32 w))). cbn [bind].
    rewrite wrap_signed_mod, wrap_signed_small
      by (change (2 ^ (32 - 1)) with 2147483648; lia).
    reflexivity.
Qed.

Lemma roundtrip_float (f : spec_float) :
  valid_binary 24 128 f = true ->
  valueToBuffer StringToNumber (VNum (of_binary32 f)) (js "float")
    = Return (VBuf (le_split 4 (bits_of_binary32 f))) /\
  bufferToValue (le_split 4 (bits_of_binary32 f)) (js "float")
    = Return (VNum (of_binary32 f)).
Proof.
  intros H. split.
  - unfold valueToBuffer. switch_on_tag. cbn [ToNumber].
    unfold writeFloatLE. rewrite to_binary32_of_binary32 by assumption.
    change (alloc 4) with (alloc (length (le_split 4 (bits_of_binary32 f)))).
    rewrite store_at_alloc. reflexivity.
  - unfold bufferToValue. switch_on_tag. unfold readFloatLE.
    rewrite (read_le_split_4 (fun w => of_binary32 (binary32_of_bits w))).
    cbn [bind].
    rewrite Z.mod_small by (apply bits_of_binary32_range; assumption).
    now rewrite binary32_of_bits_of_binary32.
Qed.

Lemma roundtrip_string (s : jsstring) :
  well_formed s = true ->
  valueToBuffer StringToNumber (VStr s) (js "string")
    = Return (VBuf (utf8_encode s)) /\
  bufferToValue (utf8_encode s) (js "string") = Return (VStr s).
Proof.
  intros H. split.
  - unfold valueToBuffer. switch_on_tag. reflexivity.
  - unfold bufferToValue. switch_on_tag. now rewrite utf8_decode_encode.
Qed.

Lemma roundtrip_data (bytes : list byte) :
  valueToBuffer StringToNumber (VStr (base64_encode bytes)) (js "data")
    = Return (VBuf bytes) /\
  bufferToValue bytes (js "data") = Return (VStr (base64_encode bytes)).
Proof.
  split.
  - unfold valueToBuffer. switch_on_tag. now rewrite base64_decode_encode.
  - unfold bufferToValue. switch_on_tag. reflexivity.
Qed.

End Roundtrip.

(** ** Examples *)

Example encode_uint16_3000 S2N :
  valueToBuffer S2N (VNum (of_Z 3000)) (js "uint16")
  = Return (VBuf [Byte.xb8; Byte.x0b]).
Proof. vm_compute. reflexivity. Qed.

Example decode_uint16_3000 :
  bufferToValue [Byte.xb8; Byte.x0b] (js "uint16") = Return (VNum (of_Z 3000)).
Proof. vm_compute. reflexivity. Qed.

Example decode_bool_true : bufferToValue [Byte.x01] (js "bool") = Return (VBool true).
Proof. vm_compute. reflexivity. Qed.

Example decode_bool_false : bufferToValue [Byte.x00] (js "bool") = Return (VBool false).
Proof. vm_compute. reflexivity. Qed.

Example encode_data_hello S2N :
  valueToBuffer S2N (VStr (js "SGVsbG8=")) (js "data")
  = Return (VBuf [Byte.x48; Byte.x65; Byte.x6c; Byte.x6c; Byte.x6f]).
Proof. vm_compute. reflexivity. Qed.

Example decode_data_hello :
  bufferToValue [Byte.x48; Byte.x65; Byte.x6c; Byte.x6c; Byte.x6f] (js "data")
  = Return (VStr (js "SGVsbG8=")).
Proof. vm_compute. reflexivity. Qed.

Example encode_float_one_and_a_half S2N :
  valueToBuffer S2N (VNum (S754_finite false 3 (-1))) (js "float")
  = Return (VBuf [Byte.x00; Byte.x00; Byte.xc0; Byte.x3f]).
Proof. vm_compute. reflexivity. Qed.

Example encode_unknown S2N :
  valueToBuffer S2N (VNum (of_Z 1)) (js "unknown")
  = Throw (Error (js "Unknown format type: unknown")).
Proof. vm_compute. reflexivity. Qed.

End Codec.
Import Codec.

(* ===================================================================== *)
(** * The operation watcher *)
(* ===================================================================== *)

Module Watcher.

(** The object literal [{rejected, fn, timeout}] that [addWatcher] returns.
    [fn] names the closure (the activation of [addWatcher] that created it),
    [timeout] is [null] or the timer returned by [setTimeout]. *)
Record watcher := {
  rejected : bool;
  fn : nat;
  timeout : option nat
}.

(** The variables an activation of [addWatcher] leaves to its closures
    [fn] and the timer callback: the local [rejected] and the parameter
    [rejectFn] (a function of the caller, known here by its identity). *)
Record activation := {
  rejected_var : bool;
  rejectFn : nat
}.

(** A pending timer of the host: its identity, the activation whose timer
    callback it runs, and the delay it was set with. *)
Record timer := {
  timer_id : nat;
  timer_of : nat;
  delay : value
}.

(** An invocation of a [rejectFn]: which function, from which activation,
    with which argument. *)
Record call := {
  callee : nat;
  caller : nat;
  reason : value
}.

(** The store the module works on.  [listeners] are the ['disconnect']
    listeners of the peripherals, in registration order, as pairs of a
    peripheral and the closure [fn] registered on it with [once]. *)
Record world := {
  activations : list activation;
  objects : list watcher;
  listeners : list (nat * nat);
  timers : list timer;
  next_timer : nat;
  calls : list call
}.

Definition initial : world :=
  {| activations := []; objects := []; listeners := []; timers := [];
     next_timer := 0; calls := [] |}.

Fixpoint update {A} (l : list A) (i : nat) (f : A -> A) : list A :=
  match l, i with
  | [], _ => []
  | x :: l', O => f x :: l'
  | x :: l', S i' => x :: update l' i' f
  end.

(** ** The host: EventEmitter and timers *)

(** [peripheral.once('disconnect', f)] *)
Definition once (peripheral f : nat) (w : world) : world :=
  {| activations := activations w; objects := objects w;
     listeners := listeners w ++ [(peripheral, f)];
     timers := timers w; next_timer := next_timer w; calls := calls w |}.

Definition same_listener (a b : nat * nat) : bool :=
  (fst a =? fst b)%nat && (snd a =? snd b)%nat.

Fixpoint remove_first (x : nat * nat) (l : list (nat * nat)) : list (nat * nat) :=
  match l with
  | [] => []
  | y :: l' => if same_listener x y then l' else y :: remove_first x l'
  end.

(** [peripheral.removeListener('disconnect', f)] removes the most recently
    added registration of [f], if there is one. *)
Definition removeListener (peripheral f : nat) (w : world) : world :=
  {| activations := activations w; objects := objects w;
     listeners := rev (remove_first (peripheral, f) (rev (listeners w)));
     timers := timers w; next_timer := next_timer w; calls := calls w |}.

(** [setTimeout(callback of activation a, delay)] *)
Definition setTimeout (a : nat) (d : value) (w : world) : world * nat :=
  ({| activations := activations w; objects := objects w;
      listeners := listeners w;
      timers := timers w ++ [{| timer_id := next_timer w; timer_of := a; delay := d |}];
      next_timer := S (next_timer w); calls := calls w |},
   next_timer w).

(** [clearTimeout(t)] *)
Definition clearTimeout (t : nat) (w : world) : world :=
  {| activations := activations w; objects := objects w;
     listeners := listeners w;
     timers := filter (fun tm => negb (timer_id tm =? t)%nat) (timers w);
     next_timer := next_timer w; calls := calls w |}.

(** ** The closures of [addWatcher] *)

Definition read_rejected (a : nat) (w : world) : bool :=
  match nth_error (activations w) a with
  | Some act => rejected_var act
  | None => false
  end.

(** [rejected = true] inside activation [a] *)
Definition assign_rejected (a : nat) (w : world) : world :=
  {| activations :=
       update (activations w) a
         (fun act => {| rejected_var := true; rejectFn := rejectFn act |});
     objects := objects w; listeners := listeners w; timers := timers w;
     next_timer := next_timer w; calls := calls w |}.

(** [rejectFn(reason)] inside activation [a] *)
Definition call_rejectFn (a : nat) (r : value) (w : world) : world :=
  match nth_error (activations w) a with
  | Some act =>
      {| activations := activations w; objects := objects w;
         listeners := listeners w; timers := timers w;
         next_timer := next_timer w;
         calls := calls w ++ [{| callee := rejectFn act; caller := a; reason := r |}] |}
  | None => w
  end.

(** The closure [fn] of activation [a]:
    [reason = reason || 'Disconnected'; rejected = true; rejectFn(reason)] *)
Definition fn_body (a : nat) (r : value) (w : world) : world :=
  let r := or_else r (VStr (js "Disconnected")) in
  let w := assign_rejected a w in
  call_rejectFn a r w.

(** The timer callback of activation [a]:
    [if (rejected) return; fn('Timeout')] *)
Definition timer_callback (a : nat) (w : world) : world :=
  if read_rejected a w then w
  else fn_body a (VStr (js "Timeout")) w.

(** ** The module *)

Definition addWatcher (peripheral rejectFn : nat) (timeout : value) (w : world)
  : world * nat :=
  (* the default parameter [timeout = 3000] *)
  let timeout := match timeout with VUndefined => VNum (of_Z 3000) | _ => timeout end in
  (* [let rejected = false] and the closure [fn] *)
  let a := length (activations w) in
  let w :=
    {| activations := activations w ++ [{| rejected_var := false; rejectFn := rejectFn |}];
       objects := objects w; listeners := listeners w; timers := timers w;
       next_timer := next_timer w; calls := calls w |} in
  let w := once peripheral a w in
  (* the object literal reads [rejected] once *)
  let handle := length (objects w) in
  let w :=
    {| activations := activations w;
       objects := objects w ++ [{| rejected := read_rejected a w; fn := a; timeout := None |}];
       listeners := listeners w; timers := timers w;
       next_timer := next_timer w; calls := calls w |} in
  if ToBoolean timeout then
    let '(w, t) := setTimeout a timeout w in
    ({| activations := activations w;
        objects :=
          update (objects w) handle
            (fun o => {| rejected := rejected o; fn := fn o; timeout := Some t |});
        listeners := listeners w; timers := timers w;
        next_timer := next_timer w; calls := calls w |},
     handle)
  else (w, handle).

Definition removeWatcher (peripheral handle : nat) (w : world) : world :=
  match nth_error (objects w) handle with
  | Some o =>
      let w := match timeout o with
               | Some t => clearTimeout t w
               | None => w
               end in
      removeListener peripheral (fn o) w
  | None => w
  end.

(** ** What happens around the module *)

(** [peripheral.emit('disconnect', arg)]: the listeners registered on the
    peripheral are taken off it (they were added with [once]) and called in
    registration order. *)
Definition emit_disconnect (peripheral : nat) (arg : value) (w : world) : world :=
  let fired := filter (fun l => (fst l =? peripheral)%nat) (listeners w) in
  let w :=
    {| activations := activations w; objects := objects w;
       listeners := filter (fun l => negb (fst l =? peripheral)%nat) (listeners w);
       timers := timers w; next_timer := next_timer w; calls := calls w |} in
  fold_left (fun w l => fn_body (snd l) arg w) fired w.

(** A pending timer expires: it leaves the pending timers and its callback
    runs. *)
Definition expire (t : nat) (w : world) : world :=
  match find (fun tm => (timer_id tm =? t)%nat) (timers w) with
  | Some tm => timer_callback (timer_of tm) (clearTimeout t w)
  | None => w
  end.

Inductive action :=
| AddWatcher (peripheral rejectFn : nat) (timeout : value)
| RemoveWatcher (peripheral handle : nat)
| Disconnect (peripheral : nat) (arg : value)
| Expire (t : nat).

Definition step (w : world) (a : action) : world :=
  match a with
  | AddWatcher p r t => fst (addWatcher p r t w)
  | RemoveWatcher p h => removeWatcher p h w
  | Disconnect p arg => emit_disconnect p arg w
  | Expire t => expire t w
  end.

Definition run (acts : list action) (w : world) : world := fold_left step acts w.

(** The invocations of [rejectFn] made by activation [a]. *)
Definition calls_by (a : nat) (w : world) : list call :=
  filter (fun c => (caller c =? a)%nat) (calls w).

Definition listeners_of (a : nat) (w : world) : list (nat * nat) :=
  filter (fun l => (snd l =? a)%nat) (listeners w).

Definition timers_of (a : nat) (w : world) : list timer :=
  filter (fun tm => (timer_of tm =? a)%nat) (timers w).

(** The watcher object behind a handle. *)
Definition deref (handle : nat) (w : world) : option watcher :=
  nth_error (objects w) handle.

(** A store is well formed when every listener, timer and logged call
    belongs to an activation that exists, and every activation has its
    watcher object. *)
Definition wf (w : world) : bool :=
  (length (objects w) =? length (activations w))%nat
  && forallb (fun l => (snd l <? length (activations w))%nat) (listeners w)
  && forallb (fun tm => (timer_of tm <? length (activations w))%nat) (timers w)
  && forallb (fun c => (caller c <? length (activations w))%nat) (calls w).

(** The actions that are a disconnect event of the peripheral. *)
Definition disconnects (peripheral : nat) (a : action) : bool :=
  match a with
  | Disconnect p _ => (p =? peripheral)%nat
  | _ => false
  end.

Definition no_disconnect (peripheral : nat) (acts : list action) : bool :=
  forallb (fun a => negb (disconnects peripheral a)) acts.

(** The timeout argument [t] disables the timer: in a well-formed store the
    watcher returned by [addWatcher] has no timer handle, and as long as the
    peripheral does not disconnect [rejectFn] is not invoked. *)
Definition disables_timer (t : value) : Prop :=
  forall (w : world) (p r : nat) (acts : list action),
    wf w = true -> no_disconnect p acts = true ->
    let w1 := fst (addWatcher p r t w) in
    let h := snd (addWatcher p r t w) in
    option_map timeout (deref h w1) = Some None /\
    calls_by h (run acts w1) = [].

(** The timeout argument [t] arms the timer for the delay [d]: in a
    well-formed store the watcher returned by [addWatcher] holds the handle
    of a new timer, which is pending for the watcher with that delay. *)
Definition arms_timer (t d : value) : Prop :=
  forall (w : world) (p r : nat),
    wf w = true ->
    let w1 := fst (addWatcher p r t w) in
    let h := snd (addWatcher p r t w) in
    option_map timeout (deref h w1) = Some (Some (next_timer w)) /\
    timers w1
    = timers w ++ [{| timer_id := next_timer w; timer_of := h; delay := d |}].

(** ** Lemmas *)

Lemma length_update {A} (l : list A) i f : length (update l i f) = length l.
Proof. revert i; induction l; intros [|i]; simpl; auto. Qed.

Lemma nth_error_update_ne {A} (l : list A) i j f :
  i <> j -> nth_error (update l i f) j = nth_error l j.
Proof.
  revert i j; induction l as [|x l IH]; intros [|i] [|j] H; simpl; auto.
  congruence.
Qed.

Lemma nth_error_update_eq {A} (l : list A) i f :
  nth_error (update l i f) i = option_map f (nth_error l i).
Proof. revert i; induction l as [|x l IH]; intros [|i]; simpl; auto. Qed.

(** *** What the closures touch *)

Lemma fn_body_frame a r w :
  objects (fn_body a r w) = objects w /\
  listeners (fn_body a r w) = listeners w /\
  timers (fn_body a r w) = timers w /\
  length (activations (fn_body a r w)) = length (activations w).
Proof.
  unfold fn_body, call_rejectFn.
  destruct (nth_error (activations (assign_rejected a w)) a); simpl;
    rewrite length_update; auto.
Qed.

Lemma calls_by_fn_body_other a b r w :
  a <> b -> calls_by b (fn_body a r w) = calls_by b w.
Proof.
  intros H. unfold fn_body, call_rejectFn, calls_by.
  destruct (nth_error (activations (assign_rejected a w)) a); simpl; auto.
  rewrite filter_app. simpl.
  destruct (Nat.eqb_spec a b); [contradiction|]. apply app_nil_r.
Qed.

Lemma timer_callback_frame a w :
  objects (timer_callback a w) = objects w /\
  listeners (timer_callback a w) = listeners w /\
  timers (timer_callback a w) = timers w /\
  length (activations (timer_callback a w)) = length (activations w).
Proof.
  unfold timer_callback. destruct (read_rejected a w); auto using fn_body_frame.
Qed.

Lemma calls_by_timer_callback_other a b w :
  a <> b -> calls_by b (timer_callback a w) = calls_by b w.
Proof.
  intros H. unfold timer_callback.
  destruct (read_rejected a w); auto using calls_by_fn_body_other.
Qed.

Lemma fire_all_frame arg (fired : list (nat * nat)) w :
  let w' := fold_left (fun w l => fn_body (snd l) arg w) fired w in
  objects w' = objects w /\
  listeners w' = listeners w /\
  timers w' = timers w /\
  length (activations w') = length (activations w).
Proof.
  revert w; induction fired as [|l fired IH]; intros w; simpl; auto.
  destruct (IH (fn_body (snd l) arg w)) as (-> & -> & -> & ->).
  apply fn_body_frame.
Qed.

Lemma calls_by_fire_all_other (b : nat) arg (fired : list (nat * nat)) w :
  (forall l, In l fired -> snd l <> b) ->
  calls_by b (fold_left (fun w l => fn_body (snd l) arg w) fired w) = calls_by b w.
Proof.
  revert w; induction fired as [|l fired IH]; intros w H; simpl; auto.
  rewrite IH by (intros; apply H; simpl; auto).
  apply calls_by_fn_body_other, H. simpl; auto.
Qed.

(** *** Lists with some elements dropped *)

Inductive dropped {A} : list A -> list A -> Prop :=
| dropped_nil : dropped [] []
| dropped_keep x l1 l2 : dropped l1 l2 -> dropped (x :: l1) (x :: l2)
| dropped_skip x l1 l2 : dropped l1 l2 -> dropped l1 (x :: l2).
#[local] Hint Constructors dropped : core.

Lemma dropped_refl {A} (l : list A) : dropped l l.
Proof. induction l; auto. Qed.
#[local] Hint Resolve dropped_refl : core.

Lemma dropped_trans {A} (l1 l2 l3 : list A) :
  dropped l1 l2 -> dropped l2 l3 -> dropped l1 l3.
Proof.
  intros H12 H23; revert l1 H12.
  induction H23; intros l0 H12; auto.
  inversion H12; subst; auto.
Qed.

Lemma dropped_nil_inv {A} (l : list A) : dropped l [] -> l = [].
Proof. inversion 1; reflexivity. Qed.

Lemma dropped_one_inv {A} (l : list A) x : dropped l [x] -> l = [] \/ l = [x].
Proof.
  inversion 1 as [|? ? ? H'|? ? ? H']; subst;
    apply dropped_nil_inv in H'; subst; auto.
Qed.

Lemma dropped_In {A} (l1 l2 : list A) x : dropped l1 l2 -> In x l1 -> In x l2.
Proof. induction 1; simpl; intuition. Qed.

Lemma dropped_filter {A} (f : A -> bool) l : dropped (filter f l) l.
Proof. induction l as [|x l IH]; simpl; auto. destruct (f x); auto. Qed.

Lemma dropped_filter_mono {A} (f : A -> bool) l1 l2 :
  dropped l1 l2 -> dropped (filter f l1) (filter f l2).
Proof. induction 1; simpl; auto. all: destruct (f x); auto. Qed.

Lemma dropped_app {A} (l1 l2 k1 k2 : list A) :
  dropped l1 l2 -> dropped k1 k2 -> dropped (l1 ++ k1) (l2 ++ k2).
Proof. induction 1; simpl; auto. Qed.

Lemma dropped_rev {A} (l1 l2 : list A) : dropped l1 l2 -> dropped (rev l1) (rev l2).
Proof.
  induction 1; simpl; auto using dropped_app.
  rewrite <- (app_nil_r (rev l1)). auto using dropped_app.
Qed.

Lemma dropped_remove_first x l : dropped (remove_first x l) l.
Proof. induction l as [|y l IH]; simpl; auto. destruct (same_listener x y); auto. Qed.

Lemma dropped_remove_last x l : dropped (rev (remove_first x (rev l))) l.
Proof.
  rewrite <- (rev_involutive l) at 2. apply dropped_rev, dropped_remove_first.
Qed.

Lemma same_listener_eq x y : same_listener x y = true <-> x = y.
Proof.
  destruct x, y; unfold same_listener; simpl.
  rewrite andb_true_iff, !Nat.eqb_eq. split; [intros [-> ->]|intros [= -> ->]]; auto.
Qed.

Lemma same_listener_refl x : same_listener x x = true.
Proof. apply same_listener_eq; reflexivity. Qed.

(** *** What an action does to one activation *)

Lemma step_length w act :
  (length (activations w) <= length (activations (step w act)))%nat.
Proof.
  destruct act as [p r t|p h|p arg|t]; simpl.
  - unfold addWatcher.
    destruct (ToBoolean _); simpl; rewrite length_app; simpl; lia.
  - unfold removeWatcher. destruct (nth_error _ _) as [o|]; [|lia].
    destruct (timeout o); simpl; lia.
  - unfold emit_disconnect.
    match goal with |- context [fold_left ?f ?l ?w0] =>
      destruct (fire_all_frame arg l w0) as (_ & _ & _ & E) end.
    rewrite E; simpl; lia.
  - unfold expire. destruct (find _ _) as [tm|]; [|lia].
    destruct (timer_callback_frame (timer_of tm) (clearTimeout t w)) as (_ & _ & _ & E).
    rewrite E; simpl; lia.
Qed.

Lemma step_deref w act h o :
  deref h w = Some o -> deref h (step w act) = Some o.
Proof.
  unfold deref. intros H.
  assert (Hlt : (h < length (objects w))%nat) by (apply nth_error_Some; congruence).
  destruct act as [p r t|p h'|p arg|t]; simpl.
  - unfold addWatcher.
    destruct (ToBoolean _); simpl.
    + rewrite nth_error_update_ne by lia. rewrite nth_error_app1; auto.
    + rewrite nth_error_app1; auto.
  - unfold removeWatcher. destruct (nth_error (objects w) h') as [o'|]; auto.
    destruct (timeout o'); simpl; auto.
  - unfold emit_disconnect.
    match goal with |- context [fold_left ?f ?l ?w0] =>
      destruct (fire_all_frame arg l w0) as (E & _) end.
    rewrite E; simpl; auto.
  - unfold expire. destruct (find _ _) as [tm|]; auto.
    destruct (timer_callback_frame (timer_of tm) (clearTimeout t w)) as (E & _).
    rewrite E; simpl; auto.
Qed.

Lemma step_listeners_of w act a :
  (a < length (activations w))%nat ->
  dropped (listeners_of a (step w act)) (listeners_of a w).
Proof.
  intros Ha. unfold listeners_of.
  destruct act as [p r t|p h|p arg|t]; simpl.
  - unfold addWatcher.
    destruct (ToBoolean _); simpl; rewrite filter_app; simpl;
      destruct (Nat.eqb_spec (length (activations w)) a); try lia;
      rewrite app_nil_r; auto.
  - unfold removeWatcher. destruct (nth_error _ _) as [o|]; auto.
    apply dropped_filter_mono.
    destruct (timeout o); simpl; apply dropped_remove_last.
  - unfold emit_disconnect.
    match goal with |- context [fold_left ?f ?l ?w0] =>
      destruct (fire_all_frame arg l w0) as (_ & E & _) end.
    rewrite E; simpl. apply dropped_filter_mono, dropped_filter.
  - unfold expire. destruct (find _ _) as [tm|]; auto.
    destruct (timer_callback_frame (timer_of tm) (clearTimeout t w)) as (_ & E & _).
    rewrite E; simpl; auto.
Qed.

Lemma step_timers_of w act a :
  (a < length (activations w))%nat ->
  dropped (timers_of a (step w act)) (timers_of a w).
Proof.
  intros Ha. unfold timers_of.
  destruct act as [p r t|p h|p arg|t]; simpl.
  - unfold addWatcher.
    destruct (ToBoolean _); simpl; auto.
    rewrite filter_app; simpl.
    destruct (Nat.eqb_spec (length (activations w)) a); try lia.
    rewrite app_nil_r; auto.
  - unfold removeWatcher. destruct (nth_error _ _) as [o|]; auto.
    apply dropped_filter_mono.
    destruct (timeout o); simpl; auto using dropped_filter.
  - unfold emit_disconnect.
    match goal with |- context [fold_left ?f ?l ?w0] =>
      destruct (fire_all_frame arg l w0) as (_ & _ & E & _) end.
    rewrite E; simpl. auto.
  - unfold expire. destruct (find _ _) as [tm|]; auto.
    destruct (timer_callback_frame (timer_of tm) (clearTimeout t w)) as (_ & _ & E & _).
    rewrite E; simpl. apply dropped_filter_mono, dropped_filter.
Qed.

(** An action leaves the invocations made by an activation alone when the
    activation has no pending timer and the action is not a disconnect of a
    peripheral it listens on. *)
Lemma step_calls_by w act a :
  (a < length (activations w))%nat ->
  timers_of a w = [] ->
  (forall p arg, act = Disconnect p arg ->
     forall l, In l (listeners_of a w) -> fst l <> p) ->
  calls_by a (step w act) = calls_by a w.
Proof.
  intros Ha Ht Hl.
  destruct act as [p r t|p h|p arg|t]; simpl.
  - unfold addWatcher. destruct (ToBoolean _); reflexivity.
  - unfold removeWatcher. destruct (nth_error _ _) as [o|]; auto.
    destruct (timeout o); reflexivity.
  - unfold emit_disconnect. rewrite calls_by_fire_all_other; [reflexivity|].
    intros l Hin E. apply filter_In in Hin. destruct Hin as [Hin Hp].
    apply Nat.eqb_eq in Hp.
    apply (Hl p arg eq_refl l); auto.
    unfold listeners_of. apply filter_In. split; auto. now apply Nat.eqb_eq.
  - unfold expire. destruct (find _ _) as [tm|] eqn:F; auto.
    apply find_some in F. destruct F as [Hin _].
    rewrite calls_by_timer_callback_other; [reflexivity|].
    intros E.
    assert (In tm (timers_of a w)) as Hin'
      by (unfold timers_of; apply filter_In; split; auto; now apply Nat.eqb_eq).
    rewrite Ht in Hin'. destruct Hin'.
Qed.

Lemma Forall_dropped {A} (P : A -> Prop) l1 l2 :
  dropped l1 l2 -> Forall P l2 -> Forall P l1.
Proof.
  induction 1 as [|x l1 l2 D IH|x l1 l2 D IH]; intros HF; auto;
    inversion HF; subst; auto.
Qed.

(** *** Disarmed watchers *)

(** The activation has no listener registered and no timer pending. *)
Definition disarmed (a : nat) (w : world) : Prop :=
  (a < length (activations w))%nat /\ listeners_of a w = [] /\ timers_of a w = [].

Lemma step_disarmed a w act :
  disarmed a w ->
  disarmed a (step w act) /\ calls_by a (step w act) = calls_by a w.
Proof.
  intros (Ha & Hl & Ht). split; [split; [|split]|].
  - pose proof (step_length w act); lia.
  - pose proof (step_listeners_of w act a Ha) as H. rewrite Hl in H.
    now apply dropped_nil_inv.
  - pose proof (step_timers_of w act a Ha) as H. rewrite Ht in H.
    now apply dropped_nil_inv.
  - apply step_calls_by; auto. intros p arg _ l. rewrite Hl. intros [].
Qed.

Lemma run_disarmed a acts w :
  disarmed a w ->
  disarmed a (run acts w) /\ calls_by a (run acts w) = calls_by a w.
Proof.
  revert w; induction acts as [|act acts IH]; intros w H; simpl; auto.
  destruct (step_disarmed a w act H) as [H' E].
  destruct (IH _ H') as [H'' E']. split; congruence.
Qed.

(** *** Armed watchers *)

(** The watcher behind handle [h] belongs to activation [a]; the
    activation listens at most once, on peripheral [p], and its pending
    timers are the one recorded in the watcher object. *)
Definition armed (p h a : nat) (w : world) : Prop :=
  (a < length (activations w))%nat /\
  (exists o, deref h w = Some o /\ fn o = a /\
             Forall (fun tm => timeout o = Some (timer_id tm)) (timers_of a w)) /\
  dropped (listeners_of a w) [(p, a)].

Lemma step_armed p h a w act : armed p h a w -> armed p h a (step w act).
Proof.
  intros (Ha & (o & Ho & Hfn & Ht) & Hl). split; [|split].
  - pose proof (step_length w act); lia.
  - exists o. split; [now apply step_deref|]. split; [assumption|].
    eapply Forall_dropped; [apply step_timers_of; assumption|assumption].
  - eapply dropped_trans; [apply step_listeners_of; assumption|assumption].
Qed.

Lemma run_armed p h a acts w : armed p h a w -> armed p h a (run acts w).
Proof.
  revert w; induction acts as [|act acts IH]; intros w H; simpl; auto.
  apply IH, step_armed, H.
Qed.

Lemma removeWatcher_armed p h a w :
  armed p h a w ->
  disarmed a (removeWatcher p h w) /\
  calls_by a (removeWatcher p h w) = calls_by a w.
Proof.
  intros (Ha & (o & Ho & Hfn & Ht) & Hl).
  unfold removeWatcher. unfold deref in Ho. rewrite Ho, Hfn.
  assert (Htimers : timers_of a (match timeout o with
                                 | Some t => clearTimeout t w
                                 | None => w
                                 end) = []).
  { unfold timers_of in *. destruct (timeout o) as [t|]; simpl.
    - induction (timers w) as [|tm l IH]; simpl in *; auto.
      destruct (Nat.eqb_spec (timer_id tm) t) as [E|E]; simpl.
      + destruct (timer_of tm =? a)%nat; [inversion Ht; auto|auto].
      + destruct (timer_of tm =? a)%nat; [|auto].
        inversion Ht as [|? ? H1 H2]; subst. congruence.
    - destruct (filter _ (timers w)); auto. inversion Ht; discriminate. }
  split; [split; [|split]|].
  - destruct (timeout o); simpl; auto.
  - unfold listeners_of in *. simpl.
    replace (listeners (match timeout o with
                        | Some t => clearTimeout t w
                        | None => w
                        end)) with (listeners w) by (destruct (timeout o); auto).
    rewrite filter_rev.
    assert (E : forall l, filter (fun l0 => (snd l0 =? a)%nat) (remove_first (p, a) l)
                     = remove_first (p, a) (filter (fun l0 => (snd l0 =? a)%nat) l)).
    { induction l as [|y l IH]; simpl; auto.
      destruct (same_listener (p, a) y) eqn:S.
      - apply same_listener_eq in S. subst y. simpl.
        rewrite Nat.eqb_refl. simpl. now rewrite same_listener_refl.
      - simpl. destruct (snd y =? a)%nat; simpl; [rewrite S|]; congruence. }
    rewrite E, filter_rev.
    apply dropped_one_inv in Hl. destruct Hl as [-> | ->]; simpl; auto.
    now rewrite same_listener_refl.
  - unfold timers_of in *. simpl. exact Htimers.
  - destruct (timeout o); reflexivity.
Qed.

Lemma filter_fresh {A} (g : A -> nat) (n : nat) (l : list A) :
  forallb (fun x => (g x <? n)%nat) l = true ->
  filter (fun x => (g x =? n)%nat) l = [].
Proof.
  induction l as [|x l IH]; simpl; auto.
  rewrite andb_true_iff. intros [H1 H2]. apply Nat.ltb_lt in H1.
  destruct (Nat.eqb_spec (g x) n); [lia|auto].
Qed.

Lemma wf_fresh w :
  wf w = true ->
  length (objects w) = length (activations w) /\
  listeners_of (length (activations w)) w = [] /\
  timers_of (length (activations w)) w = [] /\
  calls_by (length (activations w)) w = [].
Proof.
  unfold wf. rewrite !andb_true_iff. intros [[[H1 H2] H3] H4].
  apply Nat.eqb_eq in H1.
  unfold listeners_of, timers_of, calls_by. auto using filter_fresh.
Qed.

(** [addWatcher] in a well-formed store arms a new watcher. *)
Lemma addWatcher_armed p r t w :
  wf w = true ->
  let h := snd (addWatcher p r t w) in
  let w1 := fst (addWatcher p r t w) in
  h = length (activations w) /\ armed p h h w1 /\ calls_by h w1 = [] /\
  listeners_of h w1 = [(p, h)].
Proof.
  intros Hwf. destruct (wf_fresh w Hwf) as (Hlen & Hl & Ht & Hc).
  unfold armed, deref; unfold listeners_of, timers_of, calls_by in *.
  unfold addWatcher.
  destruct (ToBoolean _); simpl; rewrite Hlen.
  - rewrite nth_error_update_eq, nth_error_app2 by lia.
    rewrite Hlen, Nat.sub_diag. simpl.
    rewrite !filter_app, Hl, Ht, Hc. simpl. rewrite !Nat.eqb_refl.
    rewrite length_app. simpl. repeat split; auto; try lia.
    eexists; repeat split; simpl; auto.
  - rewrite nth_error_app2 by lia. rewrite Hlen, Nat.sub_diag. simpl.
    rewrite !filter_app, Hl, Ht, Hc. simpl. rewrite !Nat.eqb_refl.
    rewrite length_app. simpl. repeat split; auto; try lia.
    eexists; repeat split; simpl; auto.
Qed.

(** *** Watchers without a timer *)

(** The activation has no timer pending and listens at most once, on
    peripheral [p]. *)
Definition untimed (p a : nat) (w : world) : Prop :=
  (a < length (activations w))%nat /\ timers_of a w = [] /\
  dropped (listeners_of a w) [(p, a)].

Lemma step_untimed p a w act :
  untimed p a w ->
  untimed p a (step w act) /\
  (disconnects p act = false -> calls_by a (step w act) = calls_by a w).
Proof.
  intros (Ha & Ht & Hl). split; [split; [|split]|].
  - pose proof (step_length w act); lia.
  - pose proof (step_timers_of w act a Ha) as H. rewrite Ht in H.
    now apply dropped_nil_inv.
  - eapply dropped_trans; [apply step_listeners_of; assumption|assumption].
  - intros Hq. apply step_calls_by; auto.
    intros p' arg -> l Hin. simpl in Hq.
    apply (dropped_In _ _ _ Hl) in Hin. destruct Hin as [<-|[]]. simpl.
    destruct (Nat.eqb_spec p' p); [discriminate|auto].
Qed.

Lemma run_untimed p a acts w :
  untimed p a w -> no_disconnect p acts = true ->
  timers_of a (run acts w) = [] /\ calls_by a (run acts w) = calls_by a w.
Proof.
  revert w; induction acts as [|act acts IH]; intros w H Hq; simpl.
  - split; [apply H|reflexivity].
  - simpl in Hq. apply andb_true_iff in Hq. destruct Hq as [Hq1 Hq2].
    apply negb_true_iff in Hq1.
    destruct (step_untimed p a w act H) as [H' E].
    destruct (IH _ H' Hq2) as [Ht Hc]. split; [assumption|].
    rewrite Hc. apply E, Hq1.
Qed.

(** With a falsy timeout other than [undefined], [addWatcher] arms a
    watcher without a timer. *)
Lemma addWatcher_untimed p r t w :
  wf w = true -> t <> VUndefined -> ToBoolean t = false ->
  let h := snd (addWatcher p r t w) in
  let w1 := fst (addWatcher p r t w) in
  untimed p h w1 /\ calls_by h w1 = [] /\
  deref h w1 = Some {| rejected := false; fn := h; timeout := None |}.
Proof.
  intros Hwf Hu Hf. destruct (wf_fresh w Hwf) as (Hlen & Hl & Ht & Hc).
  unfold untimed, deref; unfold listeners_of, timers_of, calls_by in *.
  unfold addWatcher.
  replace (ToBoolean match t with VUndefined => VNum (of_Z 3000) | _ => t end)
    with false by (destruct t; auto; congruence).
  simpl. rewrite Hlen. rewrite nth_error_app2 by lia.
  rewrite Hlen, Nat.sub_diag. simpl.
  rewrite !filter_app, Hl, Ht, Hc. simpl. rewrite !Nat.eqb_refl.
  rewrite length_app. simpl. repeat split; auto; try lia.
  unfold read_rejected. simpl.
  rewrite nth_error_app2, Nat.sub_diag by lia. reflexivity.
Qed.

(** The watcher object behind a handle is never written after
    [addWatcher] has returned. *)
Lemma run_deref acts w h o :
  deref h w = Some o -> deref h (run acts w) = Some o.
Proof.
  revert w; induction acts as [|act acts IH]; intros w H; simpl; auto.
  apply IH, step_deref, H.
Qed.

End Watcher.
Import Watcher.

(* ===================================================================== *)
(** * Properties of the module *)
(* ===================================================================== *)

(** C8. [nobleUuidToUuid] uppercases its argument; when the uppercased
    string does not have 32 code units it is returned as it is, and
    otherwise it is cut into five consecutive groups of 8, 4, 4, 4 and 12
    code units that are joined again with dashes. *)
Theorem nobleUuidToUuid_groups
    (toUpperCase : jsstring -> jsstring) (s : jsstring) :
  let u := toUpperCase s in
  if (length u =? 32)%nat then
    exists g1 g2 g3 g4 g5 : jsstring,
      u = g1 ++ g2 ++ g3 ++ g4 ++ g5 /\
      map (@length Z) [g1; g2; g3; g4; g5] = [8; 4; 4; 4; 12]%nat /\
      Uuid.nobleUuidToUuid toUpperCase s
      = g1 ++ [Uuid.dash] ++ g2 ++ [Uuid.dash] ++ g3 ++ [Uuid.dash]
           ++ g4 ++ [Uuid.dash] ++ g5
  else Uuid.nobleUuidToUuid toUpperCase s = u.
Proof.
  intros u. unfold Uuid.nobleUuidToUuid. fold u.
  destruct (length u =? 32)%nat eqn:E; simpl negb; cbv iota; [|reflexivity].
  apply Nat.eqb_eq in E.
  exists (firstn 8 u), (firstn 4 (skipn 8 u)), (firstn 4 (skipn 12 u)),
    (firstn 4 (skipn 16 u)), (skipn 20 u).
  do 32 (destruct u as [|? u]; [discriminate E|]).
  destruct u; [|discriminate E].
  repeat split.
Qed.

(** C10. [uuidToNobleUuid] is idempotent on every string [s] that the
    host lowercases character by character, as it does the result, the
    lowercase of a character of [s] being its own lowercase: a UUID in
    compact form passes through unchanged.  Nothing is asked of the host on
    other strings. *)
Theorem uuidToNobleUuid_idempotent
    (toLowerCase : jsstring -> jsstring) (lc : Z -> Z) (s : jsstring)
    (Hs : toLowerCase s = map lc s)
    (Hresult : toLowerCase (Uuid.uuidToNobleUuid toLowerCase s)
               = map lc (Uuid.uuidToNobleUuid toLowerCase s))
    (Hstable : Forall (fun c => lc (lc c) = lc c) s) :
  Uuid.uuidToNobleUuid toLowerCase (Uuid.uuidToNobleUuid toLowerCase s)
  = Uuid.uuidToNobleUuid toLowerCase s.
Proof.
  unfold Uuid.uuidToNobleUuid in *. rewrite Hresult, Hs.
  apply Uuid.remove_all_map_stable, Hstable.
Qed.

Lemma uuidToNobleUuid_idempotent_witness :
  Uuid.uuidToNobleUuid (map ascii_lower)
    (Uuid.uuidToNobleUuid (map ascii_lower)
       (js "0000180D-0000-1000-8000-00805F9B34FB"))
  = js "0000180d00001000800000805f9b34fb".
Proof.
  rewrite (uuidToNobleUuid_idempotent (map ascii_lower) ascii_lower).
  - reflexivity.
  - reflexivity.
  - reflexivity.
  - repeat (constructor; [reflexivity|]). constructor.
Defined.

(** C1 (the code departs from it).  When the timer of a watcher expires
    and the peripheral disconnects afterwards, before [removeWatcher],
    [rejectFn] is invoked twice: once with ['Timeout'] by the timer
    callback and once more with ['Disconnected'] by the listener, which
    does not look at the [rejected] flag. *)
Theorem rejectFn_twice_timer_then_disconnect :
  let w1 := fst (addWatcher 0 7 (VNum (of_Z 3000)) initial) in
  let h := snd (addWatcher 0 7 (VNum (of_Z 3000)) initial) in
  calls_by h (run [Expire 0; Disconnect 0 VUndefined] w1)
  = [ {| callee := 7; caller := h; reason := VStr (js "Timeout") |};
      {| callee := 7; caller := h; reason := VStr (js "Disconnected") |} ].
Proof. vm_compute. reflexivity. Qed.

(** In the other order the timer callback finds the flag set and the
    second occurrence is a no-op. *)
Lemma rejectFn_once_disconnect_then_timer :
  let w1 := fst (addWatcher 0 7 (VNum (of_Z 3000)) initial) in
  let h := snd (addWatcher 0 7 (VNum (of_Z 3000)) initial) in
  calls_by h (run [Disconnect 0 VUndefined; Expire 0] w1)
  = [ {| callee := 7; caller := h; reason := VStr (js "Disconnected") |} ].
Proof. vm_compute. reflexivity. Qed.

(** C4 (the code departs from it).  The [rejected] field of the handle is
    [false] when [addWatcher] returns; when [fn] runs on a disconnect it
    sets the variable [rejected] of the closure, and the field of the
    handle, a copy of the variable taken when the object was built, stays
    [false]. *)
Theorem handle_rejected_not_set_by_fire :
  let w1 := fst (addWatcher 0 7 (VNum (of_Z 3000)) initial) in
  let h := snd (addWatcher 0 7 (VNum (of_Z 3000)) initial) in
  let w2 := run [Disconnect 0 VUndefined] w1 in
  option_map rejected (deref h w1) = Some false /\
  calls_by h w2 = [ {| callee := 7; caller := h; reason := VStr (js "Disconnected") |} ] /\
  read_rejected h w2 = true /\
  option_map rejected (deref h w2) = Some false.
Proof. vm_compute. auto. Qed.

(** Whatever happens after [addWatcher], the [rejected] field of the handle
    reads [false]. *)
Lemma handle_rejected_always_false w p r t acts :
  wf w = true ->
  let w1 := fst (addWatcher p r t w) in
  let h := snd (addWatcher p r t w) in
  option_map rejected (deref h (run acts w1)) = Some false.
Proof.
  intros Hwf w1 h.
  destruct (addWatcher_armed p r t w Hwf) as (Eh & (_ & (o & Ho & _ & _) & _) & _ & _).
  fold h w1 in Eh, Ho. rewrite (run_deref acts w1 h o Ho).
  revert Ho. unfold w1, h, deref, addWatcher.
  destruct (wf_fresh w Hwf) as (Hlen & _).
  destruct (ToBoolean _); simpl.
  - rewrite nth_error_update_eq, nth_error_app2 by lia.
    rewrite Nat.sub_diag. simpl. intros [= <-]. simpl.
    unfold read_rejected. simpl.
    now rewrite nth_error_app2, Nat.sub_diag by lia.
  - rewrite nth_error_app2 by lia.
    rewrite Nat.sub_diag. simpl. intros [= <-]. simpl.
    unfold read_rejected. simpl.
    now rewrite nth_error_app2, Nat.sub_diag by lia.
Qed.

(** With an omitted timeout the parameter takes its default, 3000: a timer
    is set, and when it expires [rejectFn] is invoked without any
    disconnect. *)
Lemma omitted_timeout_fires :
  let w1 := fst (addWatcher 0 7 VUndefined initial) in
  let h := snd (addWatcher 0 7 VUndefined initial) in
  option_map timeout (deref h w1) = Some (Some 0%nat) /\
  timers w1 = [ {| timer_id := 0; timer_of := h; delay := VNum (of_Z 3000) |} ] /\
  calls_by h (run [Expire 0] w1)
  = [ {| callee := 7; caller := h; reason := VStr (js "Timeout") |} ].
Proof. vm_compute. auto. Qed.

(** C5 as stated fails for an omitted timeout: the watcher gets a timer
    handle. *)
Lemma omitted_timeout_arms_timer : ~ disables_timer VUndefined.
Proof.
  intros H.
  destruct (H initial 0%nat 7%nat [Expire 0] eq_refl eq_refl) as [H1 _].
  vm_compute in H1. discriminate H1.
Qed.

(** A timeout that is truthy once the default has replaced [undefined]
    arms the timer, with that timeout as delay. *)
Lemma truthy_timeout_arms (t : value) :
  let d := match t with VUndefined => VNum (of_Z 3000) | _ => t end in
  ToBoolean d = true -> arms_timer t d.
Proof.
  intros d Hd w p r Hwf w1 h.
  destruct (wf_fresh w Hwf) as (Hlen & _).
  subst w1 h. unfold deref, addWatcher. fold d. rewrite Hd.
  cbn [setTimeout once fst snd objects activations listeners timers next_timer calls].
  split.
  - rewrite nth_error_update_eq, nth_error_app2 by lia.
    rewrite Nat.sub_diag. reflexivity.
  - rewrite Hlen. reflexivity.
Qed.

(** C5 (amended).  A timeout argument of 0, like every falsy value other
    than [undefined], disables the timer: the watcher has no timer handle
    and without a disconnect [rejectFn] is never invoked.  An omitted
    argument, which is [undefined], does not: it is replaced by the default
    and the timer is armed, the watcher holding the handle of a timer
    pending for 3000 ms. *)
Theorem falsy_timeout_disables_timer (t : value) :
  ToBoolean t = false ->
  (t <> VUndefined <-> disables_timer t) /\
  (t = VUndefined -> arms_timer t (VNum (of_Z 3000))).
Proof.
  intros Hf. split; [split|].
  - intros Hu w p r acts Hwf Hq w1 h.
    destruct (addWatcher_untimed p r t w Hwf Hu Hf) as (Hunt & Hc & Ho).
    fold h w1 in Hunt, Hc, Ho. split.
    + rewrite Ho. reflexivity.
    + destruct (run_untimed p h acts w1 Hunt Hq) as [_ E]. congruence.
  - intros H ->.
    destruct (H initial 0%nat 7%nat [Expire 0] eq_refl eq_refl) as [_ H2].
    destruct omitted_timeout_fires as (_ & _ & E).
    cbv zeta in H2, E. rewrite E in H2. discriminate H2.
  - intros ->. apply (truthy_timeout_arms VUndefined). reflexivity.
Qed.

Lemma falsy_timeout_disables_timer_witness :
  let acts := [Expire 0; AddWatcher 1 8 VUndefined; Disconnect 1 VUndefined; Expire 0] in
  let w1 := fst (addWatcher 0 7 (VNum (of_Z 0)) initial) in
  let h := snd (addWatcher 0 7 (VNum (of_Z 0)) initial) in
  option_map timeout (deref h w1) = Some None /\ calls_by h (run acts w1) = [].
Proof.
  intros acts.
  apply (proj1 (proj1 (falsy_timeout_disables_timer (VNum (of_Z 0)) eq_refl))).
  - discriminate.
  - reflexivity.
  - reflexivity.
Defined.

(** C9.  When [removeWatcher] is called on a watcher that has not fired,
    whatever happened since [addWatcher], the timer of the watcher is no
    longer pending and its listener is no longer registered, and whatever
    happens afterwards [rejectFn] is never invoked for it. *)
Theorem removeWatcher_before_fire
    (w : world) (p r : nat) (t : value) (before after : list action) :
  wf w = true ->
  let w1 := fst (addWatcher p r t w) in
  let h := snd (addWatcher p r t w) in
  calls_by h (run before w1) = [] ->
  let w2 := removeWatcher p h (run before w1) in
  timers_of h w2 = [] /\ listeners_of h w2 = [] /\
  calls_by h (run after w2) = [].
Proof.
  intros Hwf w1 h Hquiet w2.
  destruct (addWatcher_armed p r t w Hwf) as (_ & Harmed & _ & _).
  fold h w1 in Harmed.
  apply (run_armed p h h before) in Harmed.
  destruct (removeWatcher_armed p h h _ Harmed) as [Hdis Hc].
  fold w2 in Hdis, Hc.
  destruct (run_disarmed h after w2 Hdis) as [_ E].
  destruct Hdis as (_ & Hl & Ht). repeat split; auto. congruence.
Qed.

Lemma removeWatcher_before_fire_witness :
  let w1 := fst (addWatcher 0 7 VUndefined initial) in
  let h := snd (addWatcher 0 7 VUndefined initial) in
  let w2 := removeWatcher 0 h (run [AddWatcher 1 8 VNull; Disconnect 1 VUndefined] w1) in
  timers_of h w2 = [] /\ listeners_of h w2 = [] /\
  calls_by h (run [Disconnect 0 VUndefined; Expire 0; Disconnect 0 VUndefined] w2) = [].
Proof.
  apply (removeWatcher_before_fire initial 0 7 VUndefined
           [AddWatcher 1 8 VNull; Disconnect 1 VUndefined]
           [Disconnect 0 VUndefined; Expire 0; Disconnect 0 VUndefined]).
  - reflexivity.
  - reflexivity.
Defined.

(** C2.  Every format except [uint64] decodes what it encoded: a value
    that the format represents exactly (a boolean; an integer of the
    field's range; a finite binary32 value; a well-formed string; the
    base64 text of some bytes) is packed into a buffer that unpacks to the
    same value. *)
Theorem codec_roundtrip
    (StringToNumber : jsstring -> number) (format : jsstring) (v : value) :
  representable format v ->
  exists b : buffer,
    valueToBuffer StringToNumber v format = Return (VBuf b) /\
    bufferToValue b format = Return v.
Proof.
  intros H. destruct H.
  - eexists. apply roundtrip_bool.
  - eexists. now apply roundtrip_uint8.
  - eexists. now apply roundtrip_uint16.
  - eexists. now apply roundtrip_uint32.
  - eexists. now apply roundtrip_int.
  - eexists. now apply roundtrip_float.
  - eexists. now apply roundtrip_string.
  - eexists. apply roundtrip_data.
Qed.

Lemma codec_roundtrip_witness :
  representable (js "uint16") (VNum (of_Z 3000)) /\
  exists b : buffer,
    valueToBuffer (fun _ => S754_nan) (VNum (of_Z 3000)) (js "uint16")
      = Return (VBuf b) /\
    bufferToValue b (js "uint16") = Return (VNum (of_Z 3000)).
Proof.
  assert (H : representable (js "uint16") (VNum (of_Z 3000)))
    by (apply rep_uint16; lia).
  split; [exact H|].
  exact (codec_roundtrip (fun _ => S754_nan) (js "uint16") (VNum (of_Z 3000)) H).
Defined.

(** C3 (the code departs from it).  With a zero low word, an 8-byte
    [uint64] buffer whose high word is 1 decodes to 1, not to 1 shifted left
    by 32 bits: the shift count of [<<] is taken modulo 32. *)
Theorem bufferToValue_uint64_high_word_not_shifted :
  bufferToValue
    [Byte.x00; Byte.x00; Byte.x00; Byte.x00; Byte.x01; Byte.x00; Byte.x00; Byte.x00]
    (js "uint64")
  = Return (VNum (of_Z 1)) /\
  of_Z 1 <> of_Z (Z.shiftl 1 32).
Proof. split; [vm_compute; reflexivity|vm_compute; discriminate]. Qed.

(** C6 as stated fails: a known tag does not make decoding total, a buffer
    shorter than the field makes the read throw a range error. *)
Lemma bufferToValue_short_buffer_throws :
  ~ (forall (b : buffer) (format : jsstring),
       In format formats -> exists v, bufferToValue b format = Return v).
Proof.
  intros H. destruct (H [] (js "uint8")) as [v Hv].
  - unfold formats. cbn [map In]. tauto.
  - vm_compute in Hv. discriminate Hv.
Qed.

(** C6 (amended).  [bufferToValue] and [valueToBuffer] throw an [Error]
    exactly when the tag is not one of the module's formats, and the error
    then names the tag; with a known tag and a buffer that holds the bytes
    of the format, [bufferToValue] returns. *)
Theorem unknown_format_iff_unknown_tag
    (StringToNumber : jsstring -> number) (b : buffer) (v : value)
    (format : jsstring) :
  ((exists msg, bufferToValue b format = Throw (Error msg))
     <-> ~ In format formats) /\
  ((exists msg, valueToBuffer StringToNumber v format = Throw (Error msg))
     <-> ~ In format formats) /\
  (~ In format formats ->
     bufferToValue b format = Throw (unknown_format format) /\
     valueToBuffer StringToNumber v format = Throw (unknown_format format)) /\
  (In format formats -> (width format <= length b)%nat ->
     exists r, bufferToValue b format = Return r).
Proof.
  repeat split.
  - intros [msg E] Hin. exact (bufferToValue_known b format msg Hin E).
  - intros Hn. eexists. now apply bufferToValue_unknown.
  - intros [msg E] Hin. exact (valueToBuffer_known _ v format msg Hin E).
  - intros Hn. eexists. now apply valueToBuffer_unknown.
  - now apply bufferToValue_unknown.
  - now apply valueToBuffer_unknown.
  - apply bufferToValue_returns.
Qed.

Lemma unknown_format_iff_unknown_tag_witness :
  (exists r, bufferToValue [Byte.xb8; Byte.x0b] (js "uint16") = Return r) /\
  bufferToValue [Byte.xb8; Byte.x0b] (js "unknown")
    = Throw (Error (js "Unknown format type: unknown")) /\
  valueToBuffer (fun _ => S754_nan) VNull (js "unknown")
    = Throw (Error (js "Unknown format type: unknown")).
Proof.
  pose proof (unknown_format_iff_unknown_tag (fun _ => S754_nan)
                [Byte.xb8; Byte.x0b] VNull (js "uint16")) as (_ & _ & _ & H1).
  pose proof (unknown_format_iff_unknown_tag (fun _ => S754_nan)
                [Byte.xb8; Byte.x0b] VNull (js "unknown")) as (_ & _ & H2 & _).
  split.
  - apply H1.
    + unfold formats. cbn [map In]. tauto.
    + vm_compute. lia.
  - apply H2. unfold formats. cbn [map In]. vm_compute. intuition discriminate.
Defined.

(** C7 (the code departs from it).  Bytes 4-7 of the [uint64] encoding do
    not hold bits 32-63 of the value: [value >> 32] shifts by 0, so they
    repeat the low word, for 1 as for 2^32 + 1; and a value whose bit 31 is
    set is not encoded at all, [value & 0xffffffff] being negative. *)
Theorem valueToBuffer_uint64_high_bytes (StringToNumber : jsstring -> number) :
  valueToBuffer StringToNumber (VNum (of_Z 1)) (js "uint64")
  = Return (VBuf [Byte.x01; Byte.x00; Byte.x00; Byte.x00;
                  Byte.x01; Byte.x00; Byte.x00; Byte.x00]) /\
  valueToBuffer StringToNumber (VNum (of_Z (2 ^ 32 + 1))) (js "uint64")
  = Return (VBuf [Byte.x01; Byte.x00; Byte.x00; Byte.x00;
                  Byte.x01; Byte.x00; Byte.x00; Byte.x00]) /\
  valueToBuffer StringToNumber (VNum (of_Z (2 ^ 31))) (js "uint64")
  = Throw RangeError.
Proof. repeat split; vm_compute; reflexivity. Qed.

(* ===================================================================== *)
(** * Further properties: UUID conversion *)
(* ===================================================================== *)

Section UuidFacts.

Variable toLowerCase : jsstring -> jsstring.
Variable toUpperCase : jsstring -> jsstring.

(** The result on 32 code units, spelled out. *)
Lemma nobleUuidToUuid_32 (s : jsstring) :
  length (toUpperCase s) = 32%nat ->
  Uuid.nobleUuidToUuid toUpperCase s
  = firstn 8 (toUpperCase s) ++ [Uuid.dash]
    ++ firstn 4 (skipn 8 (toUpperCase s)) ++ [Uuid.dash]
    ++ firstn 4 (skipn 12 (toUpperCase s)) ++ [Uuid.dash]
    ++ firstn 4 (skipn 16 (toUpperCase s)) ++ [Uuid.dash]
    ++ skipn 20 (toUpperCase s).
Proof.
  intros E. unfold Uuid.nobleUuidToUuid. rewrite E. cbn [Nat.eqb negb].
  generalize dependent (toUpperCase s). intros u E.
  do 32 (destruct u as [|? u]; [discriminate E|]).
  destruct u; [reflexivity|discriminate E].
Qed.

Lemma nobleUuidToUuid_other (s : jsstring) :
  length (toUpperCase s) <> 32%nat ->
  Uuid.nobleUuidToUuid toUpperCase s = toUpperCase s.
Proof.
  intros E. unfold Uuid.nobleUuidToUuid.
  destruct (Nat.eqb_spec (length (toUpperCase s)) 32); [contradiction|reflexivity].
Qed.

Lemma pieces_32 (u : jsstring) :
  firstn 8 u ++ firstn 4 (skipn 8 u) ++ firstn 4 (skipn 12 u)
    ++ firstn 4 (skipn 16 u) ++ skipn 20 u = u.
Proof.
  etransitivity; [|apply (firstn_skipn 8 u)]. f_equal.
  etransitivity; [|apply (firstn_skipn 4 (skipn 8 u))]. f_equal.
  rewrite skipn_skipn. cbn [Nat.add].
  etransitivity; [|apply (firstn_skipn 4 (skipn 12 u))]. f_equal.
  rewrite skipn_skipn. cbn [Nat.add].
  etransitivity; [|apply (firstn_skipn 4 (skipn 16 u))]. f_equal.
  rewrite skipn_skipn. reflexivity.
Qed.

Lemma remove_all_none (c : Z) (s : jsstring) :
  Forall (fun x => x <> c) s -> remove_all c s = s.
Proof.
  induction 1 as [|x s Hx _ IH]; simpl; [reflexivity|].
  destruct (Z.eqb_spec x c); [contradiction|]. simpl. now rewrite IH.
Qed.

Lemma map_stable (f : Z -> Z) (s : jsstring) :
  Forall (fun c => f (f c) = f c) s -> map f (map f s) = map f s.
Proof. induction 1 as [|c s Hc _ IH]; simpl; congruence. Qed.

Lemma remove_all_dash_joined (g1 g2 g3 g4 g5 : jsstring) :
  Forall (fun x => x <> Uuid.dash) (g1 ++ g2 ++ g3 ++ g4 ++ g5) ->
  remove_all Uuid.dash
    (g1 ++ [Uuid.dash] ++ g2 ++ [Uuid.dash] ++ g3 ++ [Uuid.dash]
        ++ g4 ++ [Uuid.dash] ++ g5)
  = g1 ++ g2 ++ g3 ++ g4 ++ g5.
Proof.
  intros H. rewrite <- (remove_all_none Uuid.dash _ H).
  unfold remove_all. rewrite !filter_app. reflexivity.
Qed.

End UuidFacts.

(** X1.  When the uppercased string has 32 code units, the result of
    [nobleUuidToUuid] has 36, with a dash at each of the positions 8, 13, 18
    and 23. *)
Theorem nobleUuidToUuid_shape
    (toUpperCase : jsstring -> jsstring) (s : jsstring) :
  length (toUpperCase s) = 32%nat ->
  let r := Uuid.nobleUuidToUuid toUpperCase s in
  length r = 36%nat /\
  map (nth_error r) [8; 13; 18; 23]%nat
  = [Some Uuid.dash; Some Uuid.dash; Some Uuid.dash; Some Uuid.dash].
Proof.
  intros E r. subst r. unfold Uuid.nobleUuidToUuid. rewrite E. cbn [Nat.eqb negb].
  generalize dependent (toUpperCase s). intros u E.
  do 32 (destruct u as [|? u]; [discriminate E|]).
  destruct u; [split; reflexivity|discriminate E].
Qed.

Lemma nobleUuidToUuid_shape_witness :
  let r := Uuid.nobleUuidToUuid (map ascii_upper)
             (js "0000180d00001000800000805f9b34fb") in
  length r = 36%nat /\
  map (nth_error r) [8; 13; 18; 23]%nat
  = [Some Uuid.dash; Some Uuid.dash; Some Uuid.dash; Some Uuid.dash].
Proof.
  apply (nobleUuidToUuid_shape (map ascii_upper)). reflexivity.
Defined.

(** X2.  Compact to canonical and back: for a string [s] of 32 code units
    without dashes that the host uppercases character by character, when
    the host lowercases the canonical form of [s] character by character,
    keeping the dash, and lowercasing undoes uppercasing on the characters
    of [s], [uuidToNobleUuid] gives back what [nobleUuidToUuid] was given.
    Nothing is asked of the host on other strings. *)
Theorem uuidToNobleUuid_nobleUuidToUuid
    (toLowerCase toUpperCase : jsstring -> jsstring) (lc uc : Z -> Z)
    (s : jsstring) :
  toUpperCase s = map uc s ->
  toLowerCase (Uuid.nobleUuidToUuid toUpperCase s)
  = map lc (Uuid.nobleUuidToUuid toUpperCase s) ->
  lc Uuid.dash = Uuid.dash ->
  length s = 32%nat ->
  Forall (fun c => lc (uc c) = c /\ c <> Uuid.dash) s ->
  Uuid.uuidToNobleUuid toLowerCase (Uuid.nobleUuidToUuid toUpperCase s) = s.
Proof.
  intros Huc Hlc Hdash Hlen Hs.
  unfold Uuid.uuidToNobleUuid. rewrite Hlc.
  rewrite nobleUuidToUuid_32 by (rewrite Huc, length_map; exact Hlen).
  rewrite Huc, !map_app. cbn [map]. rewrite Hdash.
  assert (Hall : map lc (map uc s) = s).
  { clear - Hs. induction Hs as [|c s [Hc _] _ IH]; simpl; congruence. }
  assert (Hnd : Forall (fun x => x <> Uuid.dash) (map lc (map uc s))).
  { rewrite Hall. eapply Forall_impl; [|exact Hs]. simpl. tauto. }
  rewrite remove_all_dash_joined.
  - rewrite <- !map_app, pieces_32. exact Hall.
  - rewrite <- !map_app, pieces_32. exact Hnd.
Qed.

Lemma uuidToNobleUuid_nobleUuidToUuid_witness :
  Uuid.uuidToNobleUuid (map ascii_lower)
    (Uuid.nobleUuidToUuid (map ascii_upper) (js "0000180d00001000800000805f9b34fb"))
  = js "0000180d00001000800000805f9b34fb".
Proof.
  apply (uuidToNobleUuid_nobleUuidToUuid (map ascii_lower) (map ascii_upper)
           ascii_lower ascii_upper).
  - reflexivity.
  - reflexivity.
  - reflexivity.
  - reflexivity.
  - repeat constructor; discriminate.
Defined.

(** X3.  Canonical to compact and back: for a string [uuid] made of five
    groups of 8, 4, 4, 4 and 12 code units joined with dashes that the host
    lowercases character by character, keeping the dash, when the host
    uppercases the compact form of [uuid] character by character,
    uppercasing undoes lowercasing on the characters of the groups and none
    of them lowercases to a dash, [nobleUuidToUuid] gives back what
    [uuidToNobleUuid] was given.  Nothing is asked of the host on other
    strings. *)
Theorem nobleUuidToUuid_uuidToNobleUuid
    (toLowerCase toUpperCase : jsstring -> jsstring) (lc uc : Z -> Z)
    (g1 g2 g3 g4 g5 : jsstring) :
  let uuid := g1 ++ [Uuid.dash] ++ g2 ++ [Uuid.dash] ++ g3 ++ [Uuid.dash]
                 ++ g4 ++ [Uuid.dash] ++ g5 in
  toLowerCase uuid = map lc uuid ->
  toUpperCase (Uuid.uuidToNobleUuid toLowerCase uuid)
  = map uc (Uuid.uuidToNobleUuid toLowerCase uuid) ->
  lc Uuid.dash = Uuid.dash ->
  map (@length Z) [g1; g2; g3; g4; g5] = [8; 4; 4; 4; 12]%nat ->
  Forall (fun c => uc (lc c) = c /\ lc c <> Uuid.dash) (g1 ++ g2 ++ g3 ++ g4 ++ g5) ->
  Uuid.nobleUuidToUuid toUpperCase (Uuid.uuidToNobleUuid toLowerCase uuid) = uuid.
Proof.
  intros uuid Hlc Huc Hdash Hlen Hg.
  set (G := g1 ++ g2 ++ g3 ++ g4 ++ g5) in *.
  assert (Hcompact : Uuid.uuidToNobleUuid toLowerCase uuid = map lc G).
  { unfold Uuid.uuidToNobleUuid. rewrite Hlc. unfold uuid.
    rewrite !map_app. cbn [map]. rewrite Hdash.
    rewrite remove_all_dash_joined; [unfold G; now rewrite !map_app|].
    rewrite <- !map_app. fold G. apply Forall_map.
    eapply Forall_impl; [|exact Hg]. simpl. tauto. }
  assert (Hupper : toUpperCase (Uuid.uuidToNobleUuid toLowerCase uuid) = G).
  { rewrite Huc, Hcompact.
    clear - Hg. induction Hg as [|c s [Hc _] _ IH]; simpl; congruence. }
  injection Hlen as H1 H2 H3 H4 H5.
  rewrite nobleUuidToUuid_32
    by (rewrite Hupper; unfold G; rewrite !length_app; lia).
  rewrite Hupper. unfold G, uuid.
  do 8 (destruct g1 as [|? g1]; [discriminate H1|]).
  destruct g1; [|discriminate H1].
  do 4 (destruct g2 as [|? g2]; [discriminate H2|]).
  destruct g2; [|discriminate H2].
  do 4 (destruct g3 as [|? g3]; [discriminate H3|]).
  destruct g3; [|discriminate H3].
  do 4 (destruct g4 as [|? g4]; [discriminate H4|]).
  destruct g4; [|discriminate H4].
  reflexivity.
Qed.

Lemma nobleUuidToUuid_uuidToNobleUuid_witness :
  Uuid.nobleUuidToUuid (map ascii_upper)
    (Uuid.uuidToNobleUuid (map ascii_lower)
       (js "0000180D-0000-1000-8000-00805F9B34FB"))
  = js "0000180D-0000-1000-8000-00805F9B34FB".
Proof.
  apply (nobleUuidToUuid_uuidToNobleUuid (map ascii_lower) (map ascii_upper)
           ascii_lower ascii_upper
           (js "0000180D") (js "0000") (js "1000") (js "8000") (js "00805F9B34FB")).
  - reflexivity.
  - reflexivity.
  - reflexivity.
  - reflexivity.
  - repeat constructor; discriminate.
Defined.

(** X4.  [nobleUuidToUuid] is idempotent on every string [s] that the
    host uppercases character by character, as it does the result, the
    mapping keeping the dash and the uppercase of a character of [s] being
    its own uppercase: a UUID already in canonical form passes through
    unchanged.  Nothing is asked of the host on other strings. *)
Theorem nobleUuidToUuid_idempotent
    (toUpperCase : jsstring -> jsstring) (uc : Z -> Z) (s : jsstring) :
  toUpperCase s = map uc s ->
  toUpperCase (Uuid.nobleUuidToUuid toUpperCase s)
  = map uc (Uuid.nobleUuidToUuid toUpperCase s) ->
  Forall (fun c => uc (uc c) = uc c) s ->
  uc Uuid.dash = Uuid.dash ->
  Uuid.nobleUuidToUuid toUpperCase (Uuid.nobleUuidToUuid toUpperCase s)
  = Uuid.nobleUuidToUuid toUpperCase s.
Proof.
  intros Huc Hres Hstable Hdash.
  pose proof (map_stable uc s Hstable) as Hmap.
  set (r := Uuid.nobleUuidToUuid toUpperCase s) in *.
  assert (Hr : toUpperCase r = r /\ length r <> 32%nat).
  { rewrite Hres. unfold r.
    destruct (Nat.eq_dec (length (toUpperCase s)) 32) as [E|E].
    - rewrite (nobleUuidToUuid_32 toUpperCase s E). split.
      + rewrite !map_app. cbn [map]. rewrite Hdash.
        rewrite <- !firstn_map, <- !skipn_map, Huc, Hmap. reflexivity.
      + rewrite !length_app, !length_firstn, !length_skipn, E. simpl. lia.
    - rewrite (nobleUuidToUuid_other toUpperCase s E). split; [|exact E].
      rewrite Huc. exact Hmap. }
  destruct Hr as [Hr Hlen].
  rewrite (nobleUuidToUuid_other toUpperCase r); rewrite Hr; auto.
Qed.

Lemma nobleUuidToUuid_idempotent_witness :
  Uuid.nobleUuidToUuid (map ascii_upper)
    (Uuid.nobleUuidToUuid (map ascii_upper) (js "0000180d00001000800000805f9b34fb"))
  = js "0000180D-0000-1000-8000-00805F9B34FB".
Proof.
  rewrite (nobleUuidToUuid_idempotent (map ascii_upper) ascii_upper).
  - reflexivity.
  - reflexivity.
  - reflexivity.
  - repeat (constructor; [reflexivity|]). constructor.
  - reflexivity.
Defined.

(* ===================================================================== *)
(** * Further properties: the value codec *)
(* ===================================================================== *)

Lemma store_at_length (b : buffer) (offset : nat) (bytes b' : list byte) :
  store_at b offset bytes = Return b' -> length b' = length b.
Proof.
  unfold store_at.
  destruct (Nat.leb_spec (offset + length bytes) (length b)); [|discriminate].
  intros [= <-]. rewrite !length_app, length_firstn, length_skipn. lia.
Qed.

Lemma write_int_length n min max (b : buffer) x offset (b' : buffer) :
  write_int n min max b x offset = Return b' -> length b' = length b.
Proof.
  unfold write_int. destruct (_ || _); [discriminate|apply store_at_length].
Qed.

Lemma slice_at_app (b extra : buffer) (offset n : nat) :
  (offset + n <= length b)%nat ->
  slice_at (b ++ extra) offset n = slice_at b offset n.
Proof.
  intros H. rewrite !slice_at_fits by (rewrite ?length_app; lia).
  rewrite skipn_app, firstn_app, length_skipn.
  replace (n - (length b - offset))%nat with 0%nat by lia.
  replace (offset - length b)%nat with 0%nat by lia.
  cbn [firstn skipn]. now rewrite app_nil_r.
Qed.

(** The formats with a width are the seven fixed-width ones. *)
Lemma fixed_width_cases (format : jsstring) :
  (0 < width format)%nat ->
  format = js "bool" \/ format = js "uint8" \/ format = js "uint16" \/
  format = js "uint32" \/ format = js "uint64" \/ format = js "int" \/
  format = js "float".
Proof.
  unfold width.
  repeat match goal with
  | |- context [streq format ?t] =>
      let E := fresh in
      destruct (streq format t) eqn:E; [apply streq_eq in E; tauto|]
  end.
  lia.
Qed.

Ltac fixed_width H :=
  apply fixed_width_cases in H;
  repeat (destruct H as [H|H]); subst.

(** X5.  Whatever the value, a fixed-width format that encodes it gives a
    buffer of exactly the format's width. *)
Theorem valueToBuffer_width
    (StringToNumber : jsstring -> number) (v r : value) (format : jsstring) :
  (0 < width format)%nat ->
  valueToBuffer StringToNumber v format = Return r ->
  exists b : buffer, r = VBuf b /\ length b = width format.
Proof.
  intros H. fixed_width H; unfold valueToBuffer, width; switch_on_tag;
    unfold writeUInt16LE, writeUInt32LE, writeInt32LE, writeFloatLE.
  - intros [= <-]. eexists; split; reflexivity.
  - intros [= <-]. eexists; split; reflexivity.
  - destruct (write_int _ _ _ _ _ _) as [b|] eqn:E; [|discriminate].
    intros [= <-]. apply write_int_length in E. eauto.
  - destruct (write_int _ _ _ _ _ _) as [b|] eqn:E; [|discriminate].
    intros [= <-]. apply write_int_length in E. eauto.
  - destruct (write_int _ _ _ _ _ 0%nat) as [b|] eqn:E; [|discriminate].
    cbn [bind].
    destruct (write_int _ _ _ _ _ 4%nat) as [b'|] eqn:E'; [|discriminate].
    intros [= <-]. apply write_int_length in E, E'. exists b'.
    split; [reflexivity|]. rewrite E', E. reflexivity.
  - destruct (write_int _ _ _ _ _ _) as [b|] eqn:E; [|discriminate].
    intros [= <-]. apply write_int_length in E. eauto.
  - destruct (store_at _ _ _) as [b|] eqn:E; [|discriminate].
    intros [= <-]. apply store_at_length in E. eauto.
Qed.

Lemma valueToBuffer_width_witness :
  exists b : buffer,
    VBuf [Byte.xb8; Byte.x0b] = VBuf b /\ length b = width (js "uint16").
Proof.
  apply (valueToBuffer_width (fun _ => S754_nan) (VNum (of_Z 3000))
           (VBuf [Byte.xb8; Byte.x0b]) (js "uint16")).
  - vm_compute. lia.
  - vm_compute. reflexivity.
Defined.

(** X6.  A fixed-width format reads only its own bytes: bytes after the
    field do not change what is decoded. *)
Theorem bufferToValue_ignores_trailing_bytes
    (b extra : buffer) (format : jsstring) :
  (0 < width format)%nat -> (width format <= length b)%nat ->
  bufferToValue (b ++ extra) format = bufferToValue b format.
Proof.
  intros H. fixed_width H; unfold bufferToValue, width; switch_on_tag;
    unfold readUInt8, readUInt16LE, readUInt32LE, readInt32LE, readFloatLE;
    intros Hlen; rewrite !slice_at_app by lia; reflexivity.
Qed.

Lemma bufferToValue_ignores_trailing_bytes_witness :
  bufferToValue ([Byte.xb8; Byte.x0b] ++ [Byte.xff; Byte.x01]) (js "uint16")
  = bufferToValue [Byte.xb8; Byte.x0b] (js "uint16").
Proof.
  apply bufferToValue_ignores_trailing_bytes; vm_compute; lia.
Defined.

(** X7.  For every format but [uint64], decoding returns exactly when the
    buffer holds the bytes of the format, and throws a range error
    otherwise; [string] and [data] decode every buffer. *)
Theorem bufferToValue_returns_iff (b : buffer) (format : jsstring) :
  In format formats -> format <> js "uint64" ->
  ((exists v, bufferToValue b format = Return v)
     <-> (width format <= length b)%nat) /\
  ((length b < width format)%nat -> bufferToValue b format = Throw RangeError).
Proof.
  intros Hin Hne.
  assert (Hshort : (length b < width format)%nat ->
                   bufferToValue b format = Throw RangeError).
  { known_format Hin; try congruence; unfold bufferToValue, width; switch_on_tag;
      unfold readUInt8, readUInt16LE, readUInt32LE, readInt32LE, readFloatLE;
      intros Hlen; try lia; rewrite slice_at_short by lia; reflexivity. }
  split; [split|exact Hshort].
  - intros [v Hv]. destruct (Nat.le_gt_cases (width format) (length b)); [assumption|].
    rewrite Hshort in Hv by assumption. discriminate.
  - now apply bufferToValue_returns.
Qed.

Lemma bufferToValue_returns_iff_witness :
  ((exists v, bufferToValue [Byte.x01] (js "int") = Return v)
     <-> (width (js "int") <= 1)%nat) /\
  ((1 < width (js "int"))%nat -> bufferToValue [Byte.x01] (js "int") = Throw RangeError).
Proof.
  apply (bufferToValue_returns_iff [Byte.x01] (js "int")).
  - unfold formats. cbn [map In]. tauto.
  - discriminate.
Defined.

Lemma le_combine_firstn_4_range (b : buffer) :
  (4 <= length b)%nat -> 0 <= le_combine (firstn 4 b) < 4294967296.
Proof.
  intros H. pose proof (le_combine_bound (firstn 4 b)) as Hb.
  rewrite firstn_length_le in Hb by lia. exact Hb.
Qed.

(** X8.  Decoding [uint64], for every buffer: the low word is returned when
    it is not zero, and only a zero low word makes the code read the high
    word, which is returned as a signed 32-bit integer; a buffer too short
    for the word that is read throws a range error. *)
Theorem bufferToValue_uint64_cases (b : buffer) :
  bufferToValue b (js "uint64")
  = if (length b <? 4)%nat then Throw RangeError
    else
      let lo := le_combine (firstn 4 b) in
      if negb (lo =? 0) then Return (VNum (of_Z lo))
      else if (length b <? 8)%nat then Throw RangeError
      else Return (VNum (of_Z (wrap_signed 32 (le_combine (firstn 4 (skipn 4 b)))))).
Proof.
  unfold bufferToValue. switch_on_tag. unfold readUInt32LE.
  destruct (Nat.ltb_spec (length b) 4) as [H4|H4].
  - rewrite slice_at_short by lia. reflexivity.
  - rewrite (slice_at_fits b 0 4) by lia. cbn [bind]. change (skipn 0 b) with b.
    pose proof (le_combine_firstn_4_range b H4) as Hlo.
    cbv zeta.
    rewrite truthy_of_Z by (change (2 ^ 52) with 4503599627370496; lia).
    destruct (negb (le_combine (firstn 4 b) =? 0)); [reflexivity|].
    destruct (Nat.ltb_spec (length b) 8) as [H8|H8].
    + rewrite slice_at_short by lia. reflexivity.
    + rewrite slice_at_fits by lia. cbn [bind].
      pose proof (le_combine_firstn_4_range (skipn 4 b)) as Hhi.
      rewrite length_skipn in Hhi. specialize (Hhi ltac:(lia)).
      rewrite shl_32, ToInt32_of_Z by (change (2 ^ 52) with 4503599627370496; lia).
      reflexivity.
Qed.

Lemma ToInt32_range (x : number) : - 2147483648 <= ToInt32 x < 2147483648.
Proof. unfold ToInt32. apply (wrap_signed_range 32). lia. Qed.

(** X9.  Encoding [uint64], for every value: the value is reduced to a
    signed 32-bit integer; a negative one is refused with a range error,
    and otherwise its four little-endian bytes are written twice, as bytes
    0-3 and as bytes 4-7. *)
Theorem valueToBuffer_uint64_cases
    (StringToNumber : jsstring -> number) (v : value) :
  valueToBuffer StringToNumber v (js "uint64")
  = let x := ToInt32 (ToNumber StringToNumber v) in
    if x <? 0 then Throw RangeError
    else Return (VBuf (le_split 4 x ++ le_split 4 x)).
Proof.
  unfold valueToBuffer. switch_on_tag.
  rewrite bitand_word_mask, sar_32.
  pose proof (ToInt32_range (ToNumber StringToNumber v)) as Hx.
  cbv zeta. set (x := ToInt32 _) in *.
  unfold writeUInt32LE, write_int.
  rewrite gtb_Z_of_Z, ltb_Z_of_Z, truncate_of_Z
    by (change (2 ^ 52) with 4503599627370496; lia).
  destruct (Z.ltb_spec (2 ^ 32 - 1) x);
    [change (2 ^ 32) with 4294967296 in *; lia|].
  cbn [orb]. destruct (Z.ltb_spec x 0); [reflexivity|].
  unfold store_at, alloc. cbv [le_split]. reflexivity.
Qed.

(** X10.  On the integers from 0 to 2^31 - 1 the [uint64] format does
    round-trip. *)
Theorem uint64_roundtrip_below_2_31
    (StringToNumber : jsstring -> number) (z : Z) :
  0 <= z < 2 ^ 31 ->
  exists b : buffer,
    valueToBuffer StringToNumber (VNum (of_Z z)) (js "uint64") = Return (VBuf b) /\
    bufferToValue b (js "uint64") = Return (VNum (of_Z z)).
Proof.
  intros Hz. change (2 ^ 31) with 2147483648 in Hz.
  exists (le_split 4 z ++ le_split 4 z). split.
  - rewrite valueToBuffer_uint64 by (change (2 ^ 52) with 4503599627370496; lia).
    cbv zeta.
    rewrite wrap_signed_small by (change (2 ^ (32 - 1)) with 2147483648; lia).
    destruct (Z.ltb_spec z 0); [lia|reflexivity].
  - rewrite bufferToValue_uint64
      by (rewrite length_app, !length_le_split; reflexivity).
    cbv zeta.
    assert (E1 : firstn 4 (le_split 4 z ++ le_split 4 z) = le_split 4 z)
      by (cbv [le_split]; reflexivity).
    assert (E2 : firstn 4 (skipn 4 (le_split 4 z ++ le_split 4 z)) = le_split 4 z)
      by (cbv [le_split]; reflexivity).
    rewrite E1, E2.
    rewrite le_combine_split. change (2 ^ (Z.of_nat 4 * 8)) with 4294967296.
    rewrite Z.mod_small by lia.
    destruct (Z.eqb_spec z 0) as [->|]; [|reflexivity].
    reflexivity.
Qed.

Lemma uint64_roundtrip_below_2_31_witness :
  exists b : buffer,
    valueToBuffer (fun _ => S754_nan) (VNum (of_Z 3000)) (js "uint64")
      = Return (VBuf b) /\
    bufferToValue b (js "uint64") = Return (VNum (of_Z 3000)).
Proof.
  apply (uint64_roundtrip_below_2_31 (fun _ => S754_nan) 3000).
  change (2 ^ 31) with 2147483648. lia.
Defined.

(** ** Decoded strings are well formed *)

(** The states the UTF-8 decoder can be in: which code points can still
    come out of the bytes read so far. *)
Definition utf8_state_ok (st : utf8_state) : Prop :=
  match needed st with
  | 0%nat => True
  | 1%nat =>
      lower st = 0x80 /\ upper st = 0xBF /\
      2 <= code_point st <= 17407 /\ ~ (864 <= code_point st <= 895)
  | 2%nat =>
      (0 <= code_point st <= 15 /\
       lower st = (if code_point st =? 0 then 0xA0 else 0x80) /\
       upper st = (if code_point st =? 13 then 0x9F else 0xBF)) \/
      (16 <= code_point st <= 271 /\ lower st = 0x80 /\ upper st = 0xBF)
  | 3%nat =>
      0 <= code_point st <= 4 /\
      lower st = (if code_point st =? 0 then 0x90 else 0x80) /\
      upper st = (if code_point st =? 4 then 0x8F else 0xBF)
  | _ => False
  end.

Lemma utf8_lead_ok (b : Z) :
  0 <= b < 256 ->
  Forall scalar (fst (utf8_lead b)) /\ utf8_state_ok (snd (utf8_lead b)).
Proof.
  intros Hb. unfold utf8_lead, scalar.
  destruct (Z.leb_spec b 0x7F); [cbn; split; [repeat constructor; lia|exact I]|].
  destruct (Z.leb_spec 0xC2 b), (Z.leb_spec b 0xDF); cbn [andb];
    try (cbn; split; [constructor|]; lia).
  all: destruct (Z.leb_spec 0xE0 b), (Z.leb_spec b 0xEF); cbn [andb];
    try (cbn [fst snd]; split; [constructor|];
         unfold utf8_state_ok; cbn [needed code_point lower upper]; left;
         repeat split; try lia;
         repeat match goal with
         | |- context [?x =? ?y] => destruct (Z.eqb_spec x y); try lia
         end; reflexivity).
  all: destruct (Z.leb_spec 0xF0 b), (Z.leb_spec b 0xF4); cbn [andb];
    try (cbn [fst snd]; split; [constructor|];
         unfold utf8_state_ok; cbn [needed code_point lower upper];
         repeat split; try lia;
         repeat match goal with
         | |- context [?x =? ?y] => destruct (Z.eqb_spec x y); try lia
         end; reflexivity).
  all: cbn; split; [repeat constructor; lia|exact I].
Qed.

Lemma utf8_step_ok (st : utf8_state) (b : Z) :
  utf8_state_ok st -> 0 <= b < 256 ->
  Forall scalar (fst (utf8_step st b)) /\ utf8_state_ok (snd (utf8_step st b)).
Proof.
  intros Hst Hb. unfold utf8_step, utf8_state_ok in *.
  destruct (needed st) as [|[|[|[|n]]]]; [apply utf8_lead_ok; assumption| | | |contradiction].
  all: destruct ((lower st <=? b) && (b <=? upper st)) eqn:Hin;
    [apply andb_true_iff in Hin; destruct Hin as [H1 H2];
     apply Z.leb_le in H1, H2
    |destruct (utf8_lead b) as [out st'] eqn:El;
     pose proof (utf8_lead_ok b Hb) as [Hl1 Hl2]; rewrite El in Hl1, Hl2;
     cbn [fst snd] in *; split; [constructor; [unfold scalar; lia|assumption]|assumption]].
  - destruct Hst as (Hlo & Hup & Hc & Hs). cbn [fst snd]. split; [|exact I].
    repeat constructor; unfold scalar; lia.
  - cbn [fst snd needed code_point lower upper]. split; [constructor|].
    destruct Hst as [(Hc & Hlo & Hup)|(Hc & Hlo & Hup)].
    + destruct (Z.eqb_spec (code_point st) 0), (Z.eqb_spec (code_point st) 13);
        repeat split; lia.
    + repeat split; lia.
  - cbn [fst snd needed code_point lower upper]. split; [constructor|].
    destruct Hst as (Hc & Hlo & Hup). right.
    destruct (Z.eqb_spec (code_point st) 0), (Z.eqb_spec (code_point st) 4);
      repeat split; lia.
Qed.

Lemma utf8_run_scalar (bs : list byte) (st : utf8_state) :
  utf8_state_ok st -> Forall scalar (utf8_run st bs).
Proof.
  revert st. induction bs as [|b bs IH]; intros st Hst; cbn [utf8_run].
  - destruct (needed st); repeat constructor; unfold scalar; lia.
  - pose proof (byte.unsigned_range b) as Hb. change (2 ^ 8) with 256 in Hb.
    destruct (utf8_step_ok st (byte.unsigned b) Hst Hb) as [H1 H2].
    destruct (utf8_step st (byte.unsigned b)) as [out st']. cbn [fst snd] in *.
    apply Forall_app. split; [assumption|apply IH; assumption].
Qed.

Lemma well_formed_code_units (cp : Z) (rest : jsstring) :
  scalar cp -> well_formed (code_units cp ++ rest) = well_formed rest.
Proof.
  intros [Hr Hs]. unfold code_units.
  destruct (Z.ltb_spec cp 0x10000); cbn [app well_formed];
    unfold is_high_surrogate, is_low_surrogate.
  - repeat match goal with
    | |- context [?x <=? ?y] => destruct (Z.leb_spec x y); try lia
    end; reflexivity.
  - repeat match goal with
    | |- context [?x <=? ?y] =>
        destruct (Z.leb_spec x y); try (exfalso; Z.div_mod_to_equations; lia)
    end; reflexivity.
Qed.

(** Whatever the bytes, [buffer.toString()] is a well-formed string. *)
Lemma utf8_decode_well_formed (bs : list byte) : well_formed (utf8_decode bs) = true.
Proof.
  unfold utf8_decode.
  assert (H : Forall scalar (utf8_run utf8_start bs))
    by (apply utf8_run_scalar; exact I).
  induction H as [|cp cps Hcp _ IH]; cbn [flat_map]; [reflexivity|].
  now rewrite well_formed_code_units.
Qed.

Lemma SFeqb_of_Z_zero (z : Z) :
  - 2 ^ 52 < z < 2 ^ 52 -> SFeqb (of_Z z) (of_Z 0) = (z =? 0).
Proof.
  intros Hz. destruct (Z.eq_dec z 0) as [->|Hn]; [reflexivity|].
  destruct (of_Z_small z Hn Hz) as (m & k & _ & ->).
  destruct (Z.eqb_spec z 0); [contradiction|].
  unfold SFeqb. cbn. destruct (z <? 0); reflexivity.
Qed.

Lemma first_byte_range (x : byte) : - 2 ^ 52 < byte.unsigned x < 2 ^ 52.
Proof.
  pose proof (byte.unsigned_range x). change (2 ^ 8) with 256 in *.
  change (2 ^ 52) with 4503599627370496. lia.
Qed.

(** X11.  [bool] never fails to encode: every value is written as one
    byte, 1 when it is truthy and 0 when it is falsy, so that decoding gives
    its truthiness; and decoding takes every non-zero first byte for
    [true]. *)
Theorem bool_codec
    (StringToNumber : jsstring -> number) (v : value) (x : byte) (rest : buffer) :
  valueToBuffer StringToNumber v (js "bool")
    = Return (VBuf [if ToBoolean v then Byte.x01 else Byte.x00]) /\
  bufferToValue [if ToBoolean v then Byte.x01 else Byte.x00] (js "bool")
    = Return (VBool (ToBoolean v)) /\
  bufferToValue (x :: rest) (js "bool")
    = Return (VBool (negb (byte.unsigned x =? 0))).
Proof.
  repeat split.
  - unfold valueToBuffer. switch_on_tag. destruct (ToBoolean v); reflexivity.
  - destruct (ToBoolean v); vm_compute; reflexivity.
  - unfold bufferToValue. switch_on_tag. unfold readUInt8.
    rewrite slice_at_fits by (simpl; lia). cbn [bind skipn firstn].
    rewrite le_combine_1, SFeqb_of_Z_zero by apply first_byte_range.
    reflexivity.
Qed.

Lemma wrap_signed_mod_256 (z : Z) : wrap_signed 32 z mod 256 = z mod 256.
Proof.
  unfold wrap_signed. change (2 ^ (32 - 1)) with 2147483648.
  change (2 ^ 32) with 4294967296. Z.div_mod_to_equations. lia.
Qed.

(** X12.  [uint8] never fails to encode an integer: the value is stored
    modulo 256, and that is what decoding gives back. *)
Theorem uint8_wraps (StringToNumber : jsstring -> number) (z : Z) :
  - 2 ^ 52 < z < 2 ^ 52 ->
  valueToBuffer StringToNumber (VNum (of_Z z)) (js "uint8")
    = Return (VBuf [byte.of_Z z]) /\
  bufferToValue [byte.of_Z z] (js "uint8") = Return (VNum (of_Z (z mod 256))).
Proof.
  intros Hz. split.
  - unfold valueToBuffer. switch_on_tag. cbn [ToNumber]. unfold bitand.
    rewrite ToInt32_of_Z by assumption.
    replace (ToInt32 (of_Z 255)) with (Z.ones 8) by reflexivity.
    rewrite Z.land_ones by lia. change (2 ^ 8) with 256.
    rewrite wrap_signed_mod_256. unfold from_array. cbn [map].
    pose proof (Z.mod_pos_bound z 256 ltac:(lia)).
    rewrite truncate_of_Z by (change (2 ^ 52) with 4503599627370496; lia).
    do 2 f_equal. f_equal. apply byte.unsigned_inj.
    rewrite !byte.unsigned_of_Z. unfold byte.wrap. change (2 ^ 8) with 256.
    apply Z.mod_mod. lia.
  - unfold bufferToValue. switch_on_tag. unfold readUInt8.
    rewrite slice_at_fits by (simpl; lia). cbn [bind skipn firstn].
    rewrite le_combine_1, byte.unsigned_of_Z. reflexivity.
Qed.

Lemma uint8_wraps_witness :
  valueToBuffer (fun _ => S754_nan) (VNum (of_Z 300)) (js "uint8")
    = Return (VBuf [byte.of_Z 300]) /\
  bufferToValue [byte.of_Z 300] (js "uint8") = Return (VNum (of_Z (300 mod 256))).
Proof.
  apply (uint8_wraps (fun _ => S754_nan) 300).
  change (2 ^ 52) with 4503599627370496. lia.
Defined.

Lemma write_int_of_Z (n : nat) (min max z : Z) :
  - 2 ^ 52 < z < 2 ^ 52 ->
  write_int n min max (alloc n) (of_Z z) 0
  = if (min <=? z) && (z <=? max) then Return (le_split n z) else Throw RangeError.
Proof.
  intros Hz.
  destruct (Z.leb_spec min z), (Z.leb_spec z max); cbn [andb].
  - apply write_int_in_range; [assumption|lia].
  - unfold write_int. rewrite gtb_Z_of_Z by assumption.
    destruct (Z.ltb_spec max z); [reflexivity|lia].
  - unfold write_int. rewrite gtb_Z_of_Z, ltb_Z_of_Z by assumption.
    destruct (Z.ltb_spec z min); [|lia]. now rewrite orb_true_r.
  - unfold write_int. rewrite gtb_Z_of_Z by assumption.
    destruct (Z.ltb_spec max z); [reflexivity|lia].
Qed.

(** X13.  [uint16], [uint32] and [int] do not truncate: an integer of the
    field's range is written as its little-endian bytes, and an integer
    outside it is refused with a range error. *)
Theorem integer_formats_check_range (StringToNumber : jsstring -> number) (z : Z) :
  - 2 ^ 52 < z < 2 ^ 52 ->
  valueToBuffer StringToNumber (VNum (of_Z z)) (js "uint16")
    = (if (0 <=? z) && (z <=? 65535) then Return (VBuf (le_split 2 z))
       else Throw RangeError) /\
  valueToBuffer StringToNumber (VNum (of_Z z)) (js "uint32")
    = (if (0 <=? z) && (z <=? 4294967295) then Return (VBuf (le_split 4 z))
       else Throw RangeError) /\
  valueToBuffer StringToNumber (VNum (of_Z z)) (js "int")
    = (if (-2147483648 <=? z) && (z <=? 2147483647) then Return (VBuf (le_split 4 z))
       else Throw RangeError).
Proof.
  intros Hz. repeat split; unfold valueToBuffer; switch_on_tag; cbn [ToNumber];
    unfold writeUInt16LE, writeUInt32LE, writeInt32LE;
    rewrite write_int_of_Z by assumption;
    change (2 ^ 16 - 1) with 65535; change (2 ^ 32 - 1) with 4294967295;
    change (2 ^ 31 - 1) with 2147483647; change (- 2 ^ 31) with (-2147483648);
    match goal with |- context [if ?c then _ else _] => destruct c end; reflexivity.
Qed.

Lemma integer_formats_check_range_witness :
  valueToBuffer (fun _ => S754_nan) (VNum (of_Z 65536)) (js "uint16") = Throw RangeError /\
  valueToBuffer (fun _ => S754_nan) (VNum (of_Z 65536)) (js "uint32")
    = Return (VBuf (le_split 4 65536)) /\
  valueToBuffer (fun _ => S754_nan) (VNum (of_Z 65536)) (js "int")
    = Return (VBuf (le_split 4 65536)).
Proof.
  apply (integer_formats_check_range (fun _ => S754_nan) 65536).
  change (2 ^ 52) with 4503599627370496. lia.
Defined.

Lemma slice_at_inv (b : buffer) (offset n : nat) (bs : list byte) :
  slice_at b offset n = Return bs ->
  bs = firstn n (skipn offset b) /\ length bs = n.
Proof.
  unfold slice_at. destruct (Nat.leb_spec (offset + n) (length b)); [|discriminate].
  intros [= <-]. split; [reflexivity|].
  rewrite length_firstn, length_skipn. lia.
Qed.

Lemma le_combine_range (bs : list byte) (n : nat) :
  length bs = n -> 0 <= le_combine bs < 2 ^ (8 * Z.of_nat n).
Proof. intros <-. apply le_combine_bound. Qed.

(** X14.  What decoding returns is a value of the format: for every format
    but [uint64] and [float], a decoded value is one the format represents
    exactly: an integer of the field's range, a boolean, a well-formed
    string, the base64 text of the bytes. *)
Theorem decoded_value_representable (b : buffer) (format : jsstring) (v : value) :
  In format formats -> format <> js "uint64" -> format <> js "float" ->
  bufferToValue b format = Return v -> representable format v.
Proof.
  intros Hin H64 Hfl. known_format Hin; try congruence;
    unfold bufferToValue; switch_on_tag;
    unfold readUInt8, readUInt16LE, readUInt32LE, readInt32LE.
  - destruct (slice_at b 0 1); [|discriminate]. intros [= <-]. constructor.
  - destruct (slice_at b 0 1) as [bs|] eqn:E; [|discriminate]. intros [= <-].
    apply slice_at_inv in E. destruct E as [_ E].
    apply le_combine_range in E. change (2 ^ (8 * Z.of_nat 1)) with 256 in E.
    constructor. lia.
  - destruct (slice_at b 0 2) as [bs|] eqn:E; [|discriminate]. intros [= <-].
    apply slice_at_inv in E. destruct E as [_ E].
    apply le_combine_range in E. change (2 ^ (8 * Z.of_nat 2)) with 65536 in E.
    constructor. lia.
  - destruct (slice_at b 0 4) as [bs|] eqn:E; [|discriminate]. intros [= <-].
    apply slice_at_inv in E. destruct E as [_ E].
    apply le_combine_range in E. change (2 ^ (8 * Z.of_nat 4)) with 4294967296 in E.
    constructor. change (2 ^ 32) with 4294967296. lia.
  - destruct (slice_at b 0 4) as [bs|] eqn:E; [|discriminate]. intros [= <-].
    constructor. pose proof (wrap_signed_range 32 (le_combine bs) ltac:(lia)) as H.
    change (2 ^ (32 - 1)) with (2 ^ 31) in H. lia.
  - intros [= <-]. constructor. apply utf8_decode_well_formed.
  - intros [= <-]. constructor.
Qed.

Lemma decoded_value_representable_witness :
  representable (js "string")
    (VStr (utf8_decode [Byte.xff; Byte.x41; Byte.xe2; Byte.x82])).
Proof.
  apply (decoded_value_representable [Byte.xff; Byte.x41; Byte.xe2; Byte.x82]).
  - unfold formats. cbn [map In]. tauto.
  - discriminate.
  - discriminate.
  - reflexivity.
Defined.

Lemma le_split_wrap_signed (x : Z) : le_split 4 (wrap_signed 32 x) = le_split 4 x.
Proof.
  rewrite (le_split_mod (wrap_signed 32 x)), (le_split_mod x). f_equal.
  unfold wrap_signed. change (Z.of_nat 4 * 8) with 32.
  change (2 ^ (32 - 1)) with 2147483648. change (2 ^ 32) with 4294967296.
  Z.div_mod_to_equations. lia.
Qed.

(** X15.  The integer formats are also inverse in the other direction: a
    buffer of exactly the format's width decodes to a value that is encoded
    to the same bytes. *)
Theorem integer_formats_encode_decoded
    (StringToNumber : jsstring -> number) (b : buffer) (format : jsstring) :
  In format (map js ["uint8"; "uint16"; "uint32"; "int"]%string) ->
  length b = width format ->
  exists v : value,
    bufferToValue b format = Return v /\
    valueToBuffer StringToNumber v format = Return (VBuf b).
Proof.
  assert (Hall : forall n, length b = n -> slice_at b 0 n = Return b)
    by (intros n <-; apply slice_at_all).
  cbn [map In]. intros [<-|[<-|[<-|[<-|[]]]]] Hlen.
  - change (length b = 1%nat) in Hlen.
    pose proof (le_combine_range b _ Hlen) as Hr.
    change (2 ^ (8 * Z.of_nat 1)) with 256 in Hr.
    unfold bufferToValue; switch_on_tag. unfold readUInt8.
    rewrite (Hall _ Hlen); cbn [bind]. eexists. split; [reflexivity|].
    rewrite (proj1 (roundtrip_uint8 StringToNumber (le_combine b) ltac:(lia))).
    now rewrite (split_le_combine' b 1 Hlen).
  - change (length b = 2%nat) in Hlen.
    pose proof (le_combine_range b _ Hlen) as Hr.
    change (2 ^ (8 * Z.of_nat 2)) with 65536 in Hr.
    unfold bufferToValue; switch_on_tag. unfold readUInt16LE.
    rewrite (Hall _ Hlen); cbn [bind]. eexists. split; [reflexivity|].
    rewrite (proj1 (roundtrip_uint16 StringToNumber (le_combine b) ltac:(lia))).
    now rewrite (split_le_combine' b 2 Hlen).
  - change (length b = 4%nat) in Hlen.
    pose proof (le_combine_range b _ Hlen) as Hr.
    change (2 ^ (8 * Z.of_nat 4)) with 4294967296 in Hr.
    unfold bufferToValue; switch_on_tag. unfold readUInt32LE.
    rewrite (Hall _ Hlen); cbn [bind]. eexists. split; [reflexivity|].
    rewrite (proj1 (roundtrip_uint32 StringToNumber (le_combine b)
                      ltac:(change (2 ^ 32) with 4294967296; lia))).
    now rewrite (split_le_combine' b 4 Hlen).
  - change (length b = 4%nat) in Hlen.
    unfold bufferToValue; switch_on_tag. unfold readInt32LE.
    rewrite (Hall _ Hlen); cbn [bind]. eexists. split; [reflexivity|].
    pose proof (wrap_signed_range 32 (le_combine b) ltac:(lia)) as H.
    change (2 ^ (32 - 1)) with (2 ^ 31) in H.
    rewrite (proj1 (roundtrip_int StringToNumber (wrap_signed 32 (le_combine b))
                      ltac:(lia))).
    now rewrite le_split_wrap_signed, (split_le_combine' b 4 Hlen).
Qed.

Lemma integer_formats_encode_decoded_witness :
  exists v : value,
    bufferToValue [Byte.xfe; Byte.xff; Byte.xff; Byte.xff] (js "int") = Return v /\
    valueToBuffer (fun _ => S754_nan) v (js "int")
      = Return (VBuf [Byte.xfe; Byte.xff; Byte.xff; Byte.xff]).
Proof.
  apply integer_formats_encode_decoded.
  - cbn [map In]. tauto.
  - reflexivity.
Defined.

(* ===================================================================== *)
(** * Further properties: the operation watcher *)
(* ===================================================================== *)

Lemma dropped_length {A} (l1 l2 : list A) :
  Watcher.dropped l1 l2 -> (length l1 <= length l2)%nat.
Proof. induction 1; simpl; lia. Qed.

(** ** What the closures do to an activation *)

Lemma activations_fn_body (a : nat) (r : value) (w : world) :
  activations (fn_body a r w)
  = Watcher.update (activations w) a
      (fun act => {| rejected_var := true; rejectFn := rejectFn act |}).
Proof.
  unfold fn_body, call_rejectFn.
  destruct (nth_error (activations (assign_rejected a w)) a); reflexivity.
Qed.

Lemma calls_fn_body (a : nat) (r : value) (w : world) :
  calls (fn_body a r w)
  = calls w ++ match nth_error (activations w) a with
               | Some act =>
                   [{| callee := rejectFn act; caller := a;
                       reason := or_else r (VStr (js "Disconnected")) |}]
               | None => []
               end.
Proof.
  unfold fn_body, call_rejectFn, assign_rejected. cbn [activations].
  rewrite nth_error_update_eq.
  destruct (nth_error (activations w) a); cbn; [reflexivity|].
  now rewrite app_nil_r.
Qed.

(** An activation keeps its [rejectFn], and its [rejected] variable, once
    set, stays set. *)
Definition extends (act act' : activation) : Prop :=
  rejectFn act' = rejectFn act /\
  (rejected_var act = true -> rejected_var act' = true).

Lemma extends_refl act : extends act act.
Proof. split; auto. Qed.

Lemma extends_trans a1 a2 a3 : extends a1 a2 -> extends a2 a3 -> extends a1 a3.
Proof. intros [H1 H2] [H3 H4]. split; [congruence|auto]. Qed.

Lemma fn_body_activation (a a' : nat) (r : value) (w : world) (act : activation) :
  nth_error (activations w) a = Some act ->
  exists act', nth_error (activations (fn_body a' r w)) a = Some act' /\
               extends act act' /\ (a' = a -> rejected_var act' = true).
Proof.
  intros H. rewrite activations_fn_body.
  destruct (Nat.eq_dec a' a) as [->|Hne].
  - rewrite nth_error_update_eq, H. cbn. eexists. split; [reflexivity|].
    split; [split; auto|auto].
  - rewrite nth_error_update_ne, H by assumption. exists act.
    split; [reflexivity|]. split; [apply extends_refl|contradiction].
Qed.

Lemma timer_callback_activation (a a' : nat) (w : world) (act : activation) :
  nth_error (activations w) a = Some act ->
  exists act', nth_error (activations (timer_callback a' w)) a = Some act' /\
               extends act act'.
Proof.
  intros H. unfold timer_callback. destruct (read_rejected a' w).
  - exists act. split; [assumption|apply extends_refl].
  - destruct (fn_body_activation a a' (VStr (js "Timeout")) w act H)
      as (act' & H1 & H2 & _). eauto.
Qed.

Lemma fire_all_activation (a : nat) (arg : value) (fired : list (nat * nat))
    (w : world) (act : activation) :
  nth_error (activations w) a = Some act ->
  exists act',
    nth_error (activations (fold_left (fun w l => fn_body (snd l) arg w) fired w)) a
      = Some act' /\
    extends act act' /\
    (In a (map snd fired) -> rejected_var act' = true).
Proof.
  revert w act. induction fired as [|l fired IH]; intros w act H; cbn [fold_left].
  - exists act. split; [assumption|]. split; [apply extends_refl|intros []].
  - destruct (fn_body_activation a (snd l) arg w act H) as (act1 & H1 & E1 & F1).
    destruct (IH _ _ H1) as (act2 & H2 & E2 & F2).
    exists act2. split; [assumption|]. split; [eapply extends_trans; eassumption|].
    cbn [map In]. intros [Hl|Hin]; [|auto].
    destruct E2 as [_ E2]. auto.
Qed.

Lemma step_activation (a : nat) (w : world) (act0 : action) (act : activation) :
  nth_error (activations w) a = Some act ->
  exists act', nth_error (activations (step w act0)) a = Some act' /\
               extends act act'.
Proof.
  intros H.
  assert (Hlt : (a < length (activations w))%nat) by (apply nth_error_Some; congruence).
  destruct act0 as [p r t|p h|p arg|t]; cbn [step].
  - exists act. split; [|apply extends_refl].
    unfold addWatcher. destruct (ToBoolean _); cbn; now rewrite nth_error_app1.
  - exists act. split; [|apply extends_refl].
    unfold removeWatcher. destruct (nth_error (objects w) h) as [o|]; [|assumption].
    destruct (timeout o); assumption.
  - unfold emit_disconnect.
    match goal with |- context [fold_left ?f ?l ?w0] =>
      destruct (fire_all_activation a arg l w0 act H) as (act' & H1 & E1 & _) end.
    eauto.
  - unfold expire. destruct (find _ _) as [tm|].
    + apply timer_callback_activation. assumption.
    + exists act. split; [assumption|apply extends_refl].
Qed.

Lemma run_activation (a : nat) (acts : list action) (w : world) (act : activation) :
  nth_error (activations w) a = Some act ->
  exists act', nth_error (activations (run acts w)) a = Some act' /\
               extends act act'.
Proof.
  revert w act. induction acts as [|act0 acts IH]; intros w act H; cbn [run fold_left].
  - exists act. split; [assumption|apply extends_refl].
  - destruct (step_activation a w act0 act H) as (act1 & H1 & E1).
    destruct (IH _ _ H1) as (act2 & H2 & E2).
    exists act2. split; [exact H2|eapply extends_trans; eassumption].
Qed.

(** The activation [addWatcher] creates. *)
Lemma addWatcher_activation p r t w :
  wf w = true ->
  nth_error (activations (fst (addWatcher p r t w))) (snd (addWatcher p r t w))
  = Some {| rejected_var := false; rejectFn := r |}.
Proof.
  intros Hwf. destruct (Watcher.wf_fresh w Hwf) as (Hlen & _).
  unfold addWatcher. destruct (ToBoolean _); cbn; rewrite Hlen;
    now rewrite nth_error_app2, Nat.sub_diag by lia.
Qed.

(** ** How often [rejectFn] can be invoked *)

(** What an activation has done and can still do: the invocations made,
    the listeners registered and the timers pending. *)
Definition budget (a : nat) (w : world) : nat :=
  length (calls_by a w) + length (listeners_of a w) + length (timers_of a w).

Lemma calls_by_fn_body_le (a a' : nat) (r : value) (w : world) :
  (length (calls_by a (fn_body a' r w))
   <= length (calls_by a w) + (if (a' =? a)%nat then 1 else 0))%nat.
Proof.
  unfold calls_by. rewrite calls_fn_body, filter_app, length_app.
  destruct (nth_error (activations w) a'); cbn [filter caller length]; [|lia].
  destruct (a' =? a)%nat; cbn [length]; lia.
Qed.

Lemma calls_by_timer_callback_le (a a' : nat) (w : world) :
  (length (calls_by a (timer_callback a' w))
   <= length (calls_by a w) + (if (a' =? a)%nat then 1 else 0))%nat.
Proof.
  unfold timer_callback. destruct (read_rejected a' w);
    [lia|apply calls_by_fn_body_le].
Qed.

Lemma calls_by_fire_all_le (a : nat) (arg : value) (fired : list (nat * nat))
    (w : world) :
  (length (calls_by a (fold_left (fun w l => fn_body (snd l) arg w) fired w))
   <= length (calls_by a w)
      + length (filter (fun l => (snd l =? a)%nat) fired))%nat.
Proof.
  revert w. induction fired as [|l fired IH]; intros w; cbn [fold_left filter].
  - lia.
  - specialize (IH (fn_body (snd l) arg w)).
    pose proof (calls_by_fn_body_le a (snd l) arg w).
    destruct (snd l =? a)%nat; cbn [length]; lia.
Qed.

Lemma filter_split_length {A} (f g : A -> bool) (l : list A) :
  length (filter f l)
  = (length (filter f (filter (fun x => negb (g x)) l))
     + length (filter f (filter g l)))%nat.
Proof.
  induction l as [|x l IH]; cbn [filter length]; [reflexivity|].
  destruct (g x), (f x) eqn:E; cbn [negb filter length]; rewrite ?E;
    cbn [length]; lia.
Qed.

Lemma filter_removed_length {A} (f g : A -> bool) (l : list A) (x : A) :
  In x l -> f x = true -> g x = true ->
  (S (length (filter f (filter (fun y => negb (g y)) l))) <= length (filter f l))%nat.
Proof.
  intros Hin Hf Hg. rewrite (filter_split_length f g l).
  assert (In x (filter f (filter g l)))
    by (apply filter_In; split; [apply filter_In; split|]; assumption).
  destruct (filter f (filter g l)); [contradiction|]. cbn [length]. lia.
Qed.

Lemma budget_step (a : nat) (w : world) (act : action) :
  (a < length (activations w))%nat -> (budget a (step w act) <= budget a w)%nat.
Proof.
  intros Ha. unfold budget.
  pose proof (dropped_length _ _ (Watcher.step_listeners_of w act a Ha)) as Hl.
  pose proof (dropped_length _ _ (Watcher.step_timers_of w act a Ha)) as Ht.
  destruct act as [p r t|p h|p arg|t].
  - assert (E : calls_by a (step w (AddWatcher p r t)) = calls_by a w)
      by (cbn [step]; unfold addWatcher; destruct (ToBoolean _); reflexivity).
    rewrite E. lia.
  - assert (E : calls_by a (step w (RemoveWatcher p h)) = calls_by a w).
    { cbn [step]. unfold removeWatcher.
      destruct (nth_error (objects w) h) as [o|]; [|reflexivity].
      destruct (timeout o); reflexivity. }
    rewrite E. lia.
  - clear Hl. cbn [step] in *. unfold emit_disconnect in *.
    match goal with |- context [fold_left ?f ?l ?w0] =>
      pose proof (calls_by_fire_all_le a arg l w0) as Hc;
      destruct (Watcher.fire_all_frame arg l w0) as (_ & El & _ & _)
    end.
    unfold listeners_of at 1. rewrite El. cbn [listeners calls_by calls] in *.
    unfold calls_by in Hc at 2. cbn [calls] in Hc. fold (calls_by a w) in Hc.
    unfold listeners_of at 1.
    rewrite (filter_split_length (fun l => (snd l =? a)%nat)
               (fun l => (fst l =? p)%nat) (listeners w)).
    lia.
  - clear Ht. cbn [step] in *. unfold expire in *.
    destruct (find _ (timers w)) as [tm|] eqn:F; [|lia].
    apply find_some in F. destruct F as [Hin Hid].
    pose proof (calls_by_timer_callback_le a (timer_of tm) (clearTimeout t w)) as Hc.
    destruct (Watcher.timer_callback_frame (timer_of tm) (clearTimeout t w))
      as (_ & _ & Et & _).
    unfold timers_of at 1. rewrite Et. cbn [clearTimeout timers].
    change (calls_by a (clearTimeout t w)) with (calls_by a w) in Hc.
    destruct (Nat.eqb_spec (timer_of tm) a) as [E|E].
    + pose proof (filter_removed_length (fun tm => (timer_of tm =? a)%nat)
                    (fun tm => (timer_id tm =? t)%nat) (timers w) tm Hin
                    ltac:(now apply Nat.eqb_eq) Hid) as H.
      unfold timers_of at 1. lia.
    + pose proof (dropped_length _ _
                    (Watcher.dropped_filter_mono (fun tm => (timer_of tm =? a)%nat) _ _
                       (Watcher.dropped_filter
                          (fun tm => negb (timer_id tm =? t)%nat) (timers w)))) as H.
      unfold timers_of at 1. lia.
Qed.

Lemma budget_run (a : nat) (acts : list action) (w : world) :
  (a < length (activations w))%nat -> (budget a (run acts w) <= budget a w)%nat.
Proof.
  revert w. induction acts as [|act acts IH]; intros w Ha; cbn [run fold_left].
  - lia.
  - pose proof (Watcher.step_length w act).
    pose proof (budget_step a w act Ha).
    specialize (IH (step w act) ltac:(lia)). unfold run in IH. lia.
Qed.

(** X16.  Whatever happens after [addWatcher], [rejectFn] is invoked at
    most twice for the watcher (once by each trigger), and at most once
    when the timer is disabled. *)
Theorem rejectFn_at_most_twice
    (w : world) (p r : nat) (t : value) (acts : list action) :
  wf w = true ->
  let w1 := fst (addWatcher p r t w) in
  let h := snd (addWatcher p r t w) in
  (length (calls_by h (run acts w1))
   <= match option_map timeout (deref h w1) with
      | Some None => 1
      | _ => 2
      end)%nat.
Proof.
  intros Hwf w1 h.
  destruct (Watcher.addWatcher_armed p r t w Hwf)
    as (Eh & (Ha & (o & Ho & Hfn & Ht) & _) & Hc & Hl).
  fold h w1 in Eh, Ha, Ho, Hfn, Ht, Hc, Hl.
  pose proof (budget_run h acts w1 Ha) as H. unfold budget in H.
  rewrite Hc, Hl in H. cbn [length] in H. rewrite Ho. cbn [option_map].
  assert (Htm : (length (timers_of h w1)
                 <= match timeout o with Some _ => 1 | None => 0 end)%nat).
  { subst w1 h. clear - Hwf Ho.
    destruct (Watcher.wf_fresh w Hwf) as (Hlen & _ & Htf & _).
    revert Ho. unfold deref, timers_of, addWatcher.
    unfold timers_of in Htf.
    destruct (ToBoolean _); cbn; rewrite Hlen.
    - rewrite nth_error_update_eq, nth_error_app2 by lia.
      rewrite Hlen, Nat.sub_diag. cbn. intros [= <-]. cbn.
      rewrite filter_app, Htf. cbn. destruct (_ =? _)%nat; cbn; lia.
    - rewrite nth_error_app2 by lia. rewrite Hlen, Nat.sub_diag. cbn.
      intros [= <-]. cbn. rewrite Htf. cbn. lia. }
  destruct (timeout o); lia.
Qed.

Lemma rejectFn_at_most_twice_witness :
  let w1 := fst (addWatcher 0 7 (VNum (of_Z 3000)) initial) in
  let h := snd (addWatcher 0 7 (VNum (of_Z 3000)) initial) in
  (length (calls_by h (run [Expire 0; Disconnect 0 VUndefined; Disconnect 0 VUndefined;
                            Expire 0] w1)) <= 2)%nat.
Proof.
  apply (rejectFn_at_most_twice initial 0 7 (VNum (of_Z 3000))). reflexivity.
Defined.

(** ** The watcher object *)

(** X17.  The watcher object is complete when [addWatcher] returns and is
    never written afterwards: whatever happens, its [rejected] field is
    [false], its [fn] is the closure of its activation and its [timeout] is
    the timer that was set, or [null] when the timeout was falsy. *)
Theorem watcher_object_never_changes
    (w : world) (p r : nat) (t : value) (acts : list action) :
  wf w = true ->
  let w1 := fst (addWatcher p r t w) in
  let h := snd (addWatcher p r t w) in
  deref h (run acts w1)
  = Some {| rejected := false; fn := h;
            timeout :=
              if ToBoolean match t with VUndefined => VNum (of_Z 3000) | _ => t end
              then Some (next_timer w) else None |}.
Proof.
  intros Hwf w1 h. apply Watcher.run_deref. subst w1 h.
  destruct (Watcher.wf_fresh w Hwf) as (Hlen & _).
  unfold deref, addWatcher.
  destruct (ToBoolean _); cbn; rewrite Hlen.
  - rewrite nth_error_update_eq, nth_error_app2 by lia.
    rewrite Hlen, Nat.sub_diag. cbn. unfold read_rejected. cbn.
    now rewrite nth_error_app2, Nat.sub_diag by lia.
  - rewrite nth_error_app2 by lia. rewrite Hlen, Nat.sub_diag. cbn.
    unfold read_rejected. cbn.
    now rewrite nth_error_app2, Nat.sub_diag by lia.
Qed.

Lemma watcher_object_never_changes_witness :
  let w1 := fst (addWatcher 0 7 VUndefined initial) in
  let h := snd (addWatcher 0 7 VUndefined initial) in
  deref h (run [Expire 0; Disconnect 0 VUndefined; RemoveWatcher 0 0] w1)
  = Some {| rejected := false; fn := h; timeout := Some 0%nat |}.
Proof.
  apply (watcher_object_never_changes initial 0 7 VUndefined). reflexivity.
Defined.

(** ** After a disconnect *)

(** The activation listens no more and its [rejected] variable is set. *)
Definition spent (a : nat) (w : world) : Prop :=
  listeners_of a w = [] /\
  exists act, nth_error (activations w) a = Some act /\ rejected_var act = true.

Lemma step_spent (a : nat) (w : world) (act0 : action) :
  spent a w -> spent a (step w act0) /\ calls_by a (step w act0) = calls_by a w.
Proof.
  intros (Hl & act & Hact & Hflag).
  assert (Ha : (a < length (activations w))%nat) by (apply nth_error_Some; congruence).
  split; [split|].
  - pose proof (Watcher.step_listeners_of w act0 a Ha) as H. rewrite Hl in H.
    now apply Watcher.dropped_nil_inv.
  - destruct (step_activation a w act0 act Hact) as (act' & H1 & _ & H2). eauto.
  - destruct act0 as [p r t|p h|p arg|t]; cbn [step].
    + unfold addWatcher. destruct (ToBoolean _); reflexivity.
    + unfold removeWatcher.
      destruct (nth_error (objects w) h) as [o|]; [|reflexivity].
      destruct (timeout o); reflexivity.
    + unfold emit_disconnect. rewrite Watcher.calls_by_fire_all_other; [reflexivity|].
      intros l Hin E. apply filter_In in Hin. destruct Hin as [Hin _].
      assert (In l (listeners_of a w))
        by (apply filter_In; split; [assumption|now apply Nat.eqb_eq]).
      rewrite Hl in *. contradiction.
    + unfold expire. destruct (find _ _) as [tm|]; [|reflexivity].
      destruct (Nat.eq_dec (timer_of tm) a) as [E|E].
      * unfold timer_callback, read_rejected. cbn [clearTimeout activations].
        rewrite E, Hact, Hflag. reflexivity.
      * now rewrite Watcher.calls_by_timer_callback_other.
Qed.

Lemma run_spent (a : nat) (acts : list action) (w : world) :
  spent a w -> calls_by a (run acts w) = calls_by a w.
Proof.
  revert w. induction acts as [|act0 acts IH]; intros w H; cbn [run fold_left].
  - reflexivity.
  - destruct (step_spent a w act0 H) as [H' E]. unfold run in IH.
    rewrite IH by assumption. exact E.
Qed.

Lemma filter_comm {A} (f g : A -> bool) (l : list A) :
  filter f (filter g l) = filter g (filter f l).
Proof.
  induction l as [|x l IH]; cbn [filter]; [reflexivity|].
  destruct (f x) eqn:Ef, (g x) eqn:Eg; cbn [filter]; rewrite ?Ef, ?Eg; congruence.
Qed.

(** The invocations of an activation whose closure is among the listeners
    fired, exactly once. *)
Lemma calls_by_fire_all_one (a : nat) (arg : value) (fired : list (nat * nat))
    (w : world) (act : activation) (l0 : nat * nat) :
  nth_error (activations w) a = Some act ->
  filter (fun l => (snd l =? a)%nat) fired = [l0] ->
  calls_by a (fold_left (fun w l => fn_body (snd l) arg w) fired w)
  = calls_by a w
    ++ [{| callee := rejectFn act; caller := a;
           reason := or_else arg (VStr (js "Disconnected")) |}].
Proof.
  revert w act. induction fired as [|l fired IH]; intros w act Hact Hf;
    cbn [filter fold_left] in *; [discriminate|].
  destruct (Nat.eqb_spec (snd l) a) as [E|E].
  - injection Hf as _ Hf.
    rewrite Watcher.calls_by_fire_all_other.
    + unfold calls_by. rewrite E, calls_fn_body, Hact, filter_app.
      cbn [filter caller]. now rewrite Nat.eqb_refl.
    + intros l' Hin E'.
      assert (In l' (filter (fun l => (snd l =? a)%nat) fired))
        by (apply filter_In; split; [assumption|now apply Nat.eqb_eq]).
      rewrite Hf in *. contradiction.
  - destruct (fn_body_activation a (snd l) arg w act Hact) as (act' & H1 & [E1 _] & _).
    rewrite (IH _ act' H1 Hf), E1.
    now rewrite Watcher.calls_by_fn_body_other.
Qed.

(** X18.  A disconnect of the peripheral a watcher still listens on makes
    it fire once, with the event's argument as reason or ['Disconnected']
    when that is falsy; the listener is then gone, and whatever happens
    afterwards (the timer expiring, further disconnects) [rejectFn] is not
    invoked again. *)
Theorem disconnect_fires_once
    (w : world) (p r : nat) (t arg : value) (before after : list action) :
  wf w = true ->
  let w1 := fst (addWatcher p r t w) in
  let h := snd (addWatcher p r t w) in
  let w2 := run before w1 in
  listeners_of h w2 = [(p, h)] ->
  let w3 := step w2 (Disconnect p arg) in
  calls_by h w3
  = calls_by h w2
    ++ [{| callee := r; caller := h;
           reason := or_else arg (VStr (js "Disconnected")) |}] /\
  listeners_of h w3 = [] /\
  calls_by h (run after w3) = calls_by h w3.
Proof.
  intros Hwf w1 h w2 Hl w3.
  destruct (run_activation h before w1 _ (addWatcher_activation p r t w Hwf))
    as (act & Hact & Er & _).
  fold w1 h w2 in Hact. cbn [rejectFn] in Er.
  assert (Hfired : filter (fun l => (snd l =? h)%nat)
                     (filter (fun l => (fst l =? p)%nat) (listeners w2)) = [(p, h)]).
  { rewrite filter_comm. fold (listeners_of h w2). rewrite Hl. cbn.
    now rewrite Nat.eqb_refl. }
  assert (Hcalls : calls_by h w3
                   = calls_by h w2
                     ++ [{| callee := r; caller := h;
                            reason := or_else arg (VStr (js "Disconnected")) |}]).
  { subst w3. cbn [step]. unfold emit_disconnect.
    rewrite (calls_by_fire_all_one h arg _ _ act (p, h)); [|exact Hact|exact Hfired].
    now rewrite Er. }
  assert (Hspent : spent h w3).
  { subst w3. cbn [step]. unfold emit_disconnect. split.
    - match goal with |- context [fold_left ?f ?l ?w0] =>
        destruct (Watcher.fire_all_frame arg l w0) as (_ & El & _ & _) end.
      unfold listeners_of. rewrite El. cbn [listeners].
      rewrite filter_comm. fold (listeners_of h w2). rewrite Hl. cbn.
      now rewrite Nat.eqb_refl.
    - match goal with |- context [fold_left ?f ?l ?w0] =>
        destruct (fire_all_activation h arg l w0 act Hact) as (act' & H1 & _ & H2) end.
      exists act'. split; [exact H1|]. apply H2.
      apply in_map_iff. exists (p, h). split; [reflexivity|].
      assert (Hin : In (p, h) (filter (fun l => (snd l =? h)%nat)
                        (filter (fun l => (fst l =? p)%nat) (listeners w2))))
        by (rewrite Hfired; left; reflexivity).
      apply filter_In in Hin. tauto. }
  split; [exact Hcalls|]. split; [apply Hspent|]. now apply run_spent.
Qed.

Lemma disconnect_fires_once_witness :
  let w1 := fst (addWatcher 0 7 VUndefined initial) in
  let h := snd (addWatcher 0 7 VUndefined initial) in
  let w2 := run [AddWatcher 0 8 VNull] w1 in
  let w3 := step w2 (Disconnect 0 (VStr (js "gone"))) in
  calls_by h w3
  = calls_by h w2
    ++ [{| callee := 7; caller := h;
           reason := or_else (VStr (js "gone")) (VStr (js "Disconnected")) |}] /\
  listeners_of h w3 = [] /\
  calls_by h (run [Expire 0; Disconnect 0 VUndefined] w3) = calls_by h w3.
Proof.
  apply (disconnect_fires_once initial 0 7 VUndefined (VStr (js "gone"))
           [AddWatcher 0 8 VNull] [Expire 0; Disconnect 0 VUndefined]).
  - reflexivity.
  - reflexivity.
Defined.

(** ** [removeWatcher] *)

(** X19.  [removeWatcher] ends a watcher whether or not it has fired: its
    timer and its listener are gone, and whatever happens afterwards the
    invocations of [rejectFn] are those made before the call. *)
Theorem removeWatcher_stops_invocations
    (w : world) (p r : nat) (t : value) (before after : list action) :
  wf w = true ->
  let w1 := fst (addWatcher p r t w) in
  let h := snd (addWatcher p r t w) in
  let w2 := removeWatcher p h (run before w1) in
  timers_of h w2 = [] /\ listeners_of h w2 = [] /\
  calls_by h (run after w2) = calls_by h (run before w1).
Proof.
  intros Hwf w1 h w2.
  destruct (Watcher.addWatcher_armed p r t w Hwf) as (_ & Harmed & _ & _).
  fold h w1 in Harmed.
  apply (Watcher.run_armed p h h before) in Harmed.
  destruct (Watcher.removeWatcher_armed p h h _ Harmed) as [Hdis Hc].
  fold w2 in Hdis, Hc.
  destruct (Watcher.run_disarmed h after w2 Hdis) as [_ E].
  destruct Hdis as (_ & Hl & Ht). repeat split; auto. congruence.
Qed.

Lemma removeWatcher_stops_invocations_witness :
  let w1 := fst (addWatcher 0 7 VUndefined initial) in
  let h := snd (addWatcher 0 7 VUndefined initial) in
  let w2 := removeWatcher 0 h (run [Expire 0] w1) in
  timers_of h w2 = [] /\ listeners_of h w2 = [] /\
  calls_by h (run [Disconnect 0 VUndefined] w2) = calls_by h (run [Expire 0] w1).
Proof.
  apply (removeWatcher_stops_invocations initial 0 7 VUndefined
           [Expire 0] [Disconnect 0 VUndefined]).
  reflexivity.
Defined.

Lemma remove_first_absent (x : nat * nat) (l : list (nat * nat)) :
  ~ In x l -> Watcher.remove_first x l = l.
Proof.
  induction l as [|y l IH]; cbn [Watcher.remove_first In]; [reflexivity|].
  intros H. destruct (same_listener x y) eqn:E.
  - apply Watcher.same_listener_eq in E. subst. tauto.
  - rewrite IH by tauto. reflexivity.
Qed.

Lemma filter_idem {A} (f : A -> bool) (l : list A) :
  filter f (filter f l) = filter f l.
Proof.
  induction l as [|x l IH]; cbn [filter]; [reflexivity|].
  destruct (f x) eqn:E; cbn [filter]; rewrite ?E; congruence.
Qed.

Lemma clearTimeout_twice (t : nat) (w : world) :
  clearTimeout t (clearTimeout t w) = clearTimeout t w.
Proof.
  unfold clearTimeout. cbn [activations objects listeners timers next_timer calls].
  now rewrite filter_idem.
Qed.

Lemma removeListener_absent (p f : nat) (w : world) :
  ~ In (p, f) (listeners w) -> removeListener p f w = w.
Proof.
  intros H. unfold removeListener.
  rewrite remove_first_absent, rev_involutive by (now rewrite <- in_rev).
  now destruct w.
Qed.

(** X20.  Calling [removeWatcher] a second time changes nothing: the store
    is the one the first call left. *)
Theorem removeWatcher_twice
    (w : world) (p r : nat) (t : value) (before : list action) :
  wf w = true ->
  let w1 := fst (addWatcher p r t w) in
  let h := snd (addWatcher p r t w) in
  let w2 := removeWatcher p h (run before w1) in
  removeWatcher p h w2 = w2.
Proof.
  intros Hwf w1 h w2.
  destruct (Watcher.addWatcher_armed p r t w Hwf) as (_ & Harmed & _ & _).
  fold h w1 in Harmed.
  apply (Watcher.run_armed p h h before) in Harmed.
  destruct (Watcher.removeWatcher_armed p h h _ Harmed) as [(_ & Hl & _) _].
  fold w2 in Hl.
  destruct Harmed as (_ & (o & Ho & Hfn & _) & _).
  assert (Hnotin : ~ In (p, h) (listeners w2)).
  { intros Hin.
    assert (In (p, h) (listeners_of h w2))
      by (apply filter_In; split; [assumption|apply Nat.eqb_refl]).
    rewrite Hl in *. contradiction. }
  set (w0 := run before w1) in *. unfold deref in Ho.
  assert (Ew2 : w2 = removeListener p h
                       match timeout o with
                       | Some t0 => clearTimeout t0 w0
                       | None => w0
                       end)
    by (subst w2; unfold removeWatcher; now rewrite Ho, Hfn).
  assert (Ho2 : nth_error (objects w2) h = Some o)
    by (rewrite Ew2; destruct (timeout o); exact Ho).
  unfold removeWatcher at 1. rewrite Ho2, Hfn.
  destruct (timeout o) as [t0|].
  - rewrite removeListener_absent by exact Hnotin.
    rewrite Ew2.
    change (clearTimeout t0 (removeListener p h (clearTimeout t0 w0)))
      with (removeListener p h (clearTimeout t0 (clearTimeout t0 w0))).
    now rewrite clearTimeout_twice.
  - now apply removeListener_absent.
Qed.

Lemma removeWatcher_twice_witness :
  let w1 := fst (addWatcher 0 7 VUndefined initial) in
  let h := snd (addWatcher 0 7 VUndefined initial) in
  let w2 := removeWatcher 0 h (run [AddWatcher 0 8 VUndefined] w1) in
  removeWatcher 0 h w2 = w2.
Proof.
  apply (removeWatcher_twice initial 0 7 VUndefined [AddWatcher 0 8 VUndefined]).
  reflexivity.
Defined.

(** ** When the timer expires *)

(** The timers pending have identities below the next one the host will
    give. *)
Definition fresh_timers (w : world) : bool :=
  forallb (fun tm => (timer_id tm <? next_timer w)%nat) (timers w).

(** Timer [t0] has been given out, and only to activation [h]. *)
Definition timer_owned (t0 h : nat) (w : world) : Prop :=
  (t0 < next_timer w)%nat /\
  forall tm, In tm (timers w) -> timer_id tm = t0 -> timer_of tm = h.

Lemma step_timer_owned (t0 h : nat) (w : world) (act : action) :
  timer_owned t0 h w -> timer_owned t0 h (step w act).
Proof.
  intros [Hlt Hown]. unfold timer_owned.
  destruct act as [p r t|p h'|p arg|t]; cbn [step].
  - unfold addWatcher. destruct (ToBoolean _); cbn; (split; [lia|]); [|exact Hown].
    intros tm Hin Hid. apply in_app_or in Hin. destruct Hin as [Hin|[<-|[]]]; auto.
    cbn in Hid. lia.
  - unfold removeWatcher. destruct (nth_error (objects w) h') as [o|]; [|split; auto].
    destruct (timeout o); cbn; (split; [exact Hlt|]); [|exact Hown].
    intros tm Hin. apply filter_In in Hin. destruct Hin. auto.
  - unfold emit_disconnect.
    match goal with |- context [fold_left ?f ?l ?w0] =>
      pose proof (Watcher.fire_all_frame arg l w0) as Hf end.
    cbv zeta in Hf. destruct Hf as (_ & _ & Et & _).
    assert (En : forall (fired : list (nat * nat)) w0,
               next_timer (fold_left (fun w l => fn_body (snd l) arg w) fired w0)
               = next_timer w0).
    { induction fired as [|l fired IH]; intros w0; cbn [fold_left]; [reflexivity|].
      rewrite IH. unfold fn_body, call_rejectFn.
      destruct (nth_error _ _); reflexivity. }
    split; [rewrite En; exact Hlt|]. rewrite Et. exact Hown.
  - unfold expire. destruct (find _ _) as [tm|]; [|split; auto].
    destruct (Watcher.timer_callback_frame (timer_of tm) (clearTimeout t w))
      as (_ & _ & Et & _).
    split.
    + unfold timer_callback. destruct (read_rejected _ _); [exact Hlt|].
      unfold fn_body, call_rejectFn. destruct (nth_error _ _); exact Hlt.
    + rewrite Et. cbn. intros tm' Hin. apply filter_In in Hin. destruct Hin. auto.
Qed.

Lemma run_timer_owned (t0 h : nat) (acts : list action) (w : world) :
  timer_owned t0 h w -> timer_owned t0 h (run acts w).
Proof.
  revert w. induction acts as [|act acts IH]; intros w H; cbn [run fold_left]; auto.
  apply IH, step_timer_owned, H.
Qed.

Lemma addWatcher_timer_owned p r t w t0 :
  wf w = true -> fresh_timers w = true ->
  option_map timeout (deref (snd (addWatcher p r t w)) (fst (addWatcher p r t w)))
    = Some (Some t0) ->
  timer_owned t0 (snd (addWatcher p r t w)) (fst (addWatcher p r t w)).
Proof.
  intros Hwf Hfresh. destruct (Watcher.wf_fresh w Hwf) as (Hlen & _).
  unfold fresh_timers in Hfresh. rewrite forallb_forall in Hfresh.
  unfold deref, addWatcher, timer_owned.
  destruct (ToBoolean _); cbn; rewrite Hlen.
  - rewrite nth_error_update_eq, nth_error_app2 by lia.
    rewrite Hlen, Nat.sub_diag. cbn. intros [= <-]. split; [lia|].
    intros tm Hin Hid. apply in_app_or in Hin. destruct Hin as [Hin|[<-|[]]].
    + apply Hfresh in Hin. apply Nat.ltb_lt in Hin. lia.
    + reflexivity.
  - rewrite nth_error_app2 by lia. rewrite Hlen, Nat.sub_diag. cbn. discriminate.
Qed.

Lemma cleared_timers_of (h t0 : nat) (l : list timer) :
  (forall tm, In tm l -> timer_of tm = h -> timer_id tm = t0) ->
  filter (fun tm => (timer_of tm =? h)%nat)
    (filter (fun tm => negb (timer_id tm =? t0)%nat) l) = [].
Proof.
  induction l as [|tm l IH]; intros Hall; cbn [filter]; [reflexivity|].
  assert (Hl : forall tm', In tm' l -> timer_of tm' = h -> timer_id tm' = t0)
    by (intros tm' Hin; apply Hall; now right).
  destruct (Nat.eqb_spec (timer_id tm) t0) as [E|E]; cbn [negb]; [now apply IH|].
  cbn [filter]. destruct (Nat.eqb_spec (timer_of tm) h) as [E'|E']; [|now apply IH].
  exfalso. apply E, Hall; [now left|exact E'].
Qed.

(** X21.  When the timer of a watcher that has not fired expires,
    [rejectFn] is invoked once with ['Timeout'] and the [rejected] variable
    is set; the timer is no longer pending, but the disconnect listener
    stays registered as it was. *)
Theorem timer_fires_and_keeps_listener
    (w : world) (p r : nat) (t : value) (t0 : nat) (before : list action) :
  wf w = true -> fresh_timers w = true ->
  let w1 := fst (addWatcher p r t w) in
  let h := snd (addWatcher p r t w) in
  option_map timeout (deref h w1) = Some (Some t0) ->
  let w2 := run before w1 in
  read_rejected h w2 = false -> timers_of h w2 <> [] ->
  let w3 := step w2 (Expire t0) in
  calls_by h w3
  = calls_by h w2 ++ [{| callee := r; caller := h; reason := VStr (js "Timeout") |}] /\
  read_rejected h w3 = true /\
  timers_of h w3 = [] /\
  listeners_of h w3 = listeners_of h w2.
Proof.
  intros Hwf Hfresh w1 h Ht0 w2 Hflag Hpending w3.
  pose proof (run_timer_owned t0 h before w1
                (addWatcher_timer_owned p r t w t0 Hwf Hfresh Ht0)) as [_ Hown].
  fold w2 in Hown.
  destruct (Watcher.addWatcher_armed p r t w Hwf) as (_ & Harmed & _ & _).
  fold h w1 in Harmed.
  apply (Watcher.run_armed p h h before) in Harmed. fold w2 in Harmed.
  destruct Harmed as (_ & (o & Ho & _ & Hids) & _).
  assert (Hto : timeout o = Some t0).
  { destruct (deref h w1) as [o1|] eqn:E1; [|discriminate].
    pose proof (Watcher.run_deref before w1 h o1 E1) as E2. fold w2 in E2.
    rewrite E2 in Ho.
    injection Ho as <-. cbn in Ht0. congruence. }
  assert (Hall : forall tm, In tm (timers w2) -> timer_of tm = h -> timer_id tm = t0).
  { intros tm Hin Hof. rewrite Forall_forall in Hids.
    specialize (Hids tm ltac:(apply filter_In; split; [assumption|now apply Nat.eqb_eq])).
    congruence. }
  destruct (run_activation h before w1 _ (addWatcher_activation p r t w Hwf))
    as (act & Hact & Er & _).
  fold w1 h w2 in Hact. cbn [rejectFn] in Er.
  assert (Hfind : exists tm, find (fun tm => (timer_id tm =? t0)%nat) (timers w2) = Some tm
                             /\ timer_of tm = h).
  { destruct (find _ (timers w2)) as [tm|] eqn:F.
    - exists tm. split; [reflexivity|]. apply find_some in F. destruct F as [Hin Hid].
      apply Nat.eqb_eq in Hid. auto.
    - exfalso. destruct (timers_of h w2) as [|tm0 l] eqn:E; [congruence|].
      assert (Hin : In tm0 (timers_of h w2)) by (rewrite E; left; reflexivity).
      apply filter_In in Hin. destruct Hin as [Hin Hof]. apply Nat.eqb_eq in Hof.
      pose proof (find_none _ _ F tm0 Hin) as Hn. cbn in Hn.
      rewrite (Hall tm0 Hin Hof), Nat.eqb_refl in Hn. discriminate. }
  destruct Hfind as (tm & Hfind & Hof).
  assert (Hw3 : w3 = fn_body h (VStr (js "Timeout")) (clearTimeout t0 w2)).
  { subst w3. cbn [step]. unfold expire. rewrite Hfind, Hof.
    unfold timer_callback.
    change (read_rejected h (clearTimeout t0 w2)) with (read_rejected h w2).
    now rewrite Hflag. }
  rewrite Hw3. repeat split.
  - unfold calls_by. rewrite calls_fn_body. cbn [clearTimeout activations calls].
    rewrite Hact, filter_app, Er. cbn [filter caller]. now rewrite Nat.eqb_refl.
  - unfold read_rejected. rewrite activations_fn_body. cbn [clearTimeout activations].
    now rewrite nth_error_update_eq, Hact.
  - unfold timers_of.
    destruct (Watcher.fn_body_frame h (VStr (js "Timeout")) (clearTimeout t0 w2))
      as (_ & _ & Et & _).
    rewrite Et. cbn [clearTimeout timers]. now apply cleared_timers_of.
  - unfold listeners_of.
    destruct (Watcher.fn_body_frame h (VStr (js "Timeout")) (clearTimeout t0 w2))
      as (_ & El & _ & _).
    now rewrite El.
Qed.

Lemma timer_fires_and_keeps_listener_witness :
  let w1 := fst (addWatcher 0 7 VUndefined initial) in
  let h := snd (addWatcher 0 7 VUndefined initial) in
  let w2 := run [AddWatcher 0 8 VUndefined] w1 in
  let w3 := step w2 (Expire 0) in
  calls_by h w3
  = calls_by h w2 ++ [{| callee := 7; caller := h; reason := VStr (js "Timeout") |}] /\
  read_rejected h w3 = true /\
  timers_of h w3 = [] /\
  listeners_of h w3 = listeners_of h w2.
Proof.
  apply (timer_fires_and_keeps_listener initial 0 7 VUndefined 0
           [AddWatcher 0 8 VUndefined]).
  - reflexivity.
  - reflexivity.
  - reflexivity.
  - reflexivity.
  - discriminate.
Defined.
